(** * DNS response cache of the email infrastructure tools

    A shallow embedding of [dns/cache-manager.py] (class [DNSCacheManager]
    and its [CacheEntry] records) and the properties of the cache engine
    that were checked against it.

    Conventions of the embedding:
    - a Python [str] is the list of its code points; case mapping is the
      ASCII one (code points outside [A-Za-z] are left unchanged);
    - a [datetime] is a number of microseconds, [timedelta(seconds=n)] is
      [n * 1000000]; the range limits of [datetime] are not modelled;
    - every operation receives [now : nat -> Z], the successive values of
      [datetime.now()] read during that call;
    - [self.memory_cache], a [dict], is an association list in insertion
      order; an operation returns its result together with the manager it
      leaves behind, also when it raises;
    - Python floats are read as exact rationals. *)

From Stdlib Require Import String Ascii DecimalString.
From Stdlib Require Import ZArith List Bool Lia QArith Qround Lqa.
From Stdlib Require Import Permutation Sorted.
Import ListNotations.
Local Open Scope Z_scope.

(** ** Results of fallible code *)

Inductive exn : Type :=
| UnicodeEncodeError
| TypeError
| ConnectionError
| UnpicklingError
| ResponseError
| ZeroDivisionError
| IndexError.

Inductive result (A : Type) : Type :=
| Ok (a : A)
| Raise (e : exn).
Arguments Ok {A} a.
Arguments Raise {A} e.

Definition bind {A B : Type} (r : result A) (k : A -> result B) : result B :=
  match r with
  | Ok a => k a
  | Raise e => Raise e
  end.

(** ** Python strings *)

Abbreviation pystr := (list Z) (only parsing).

Definition str (s : string) : pystr :=
  map (fun c => Z.of_nat (nat_of_ascii c)) (list_ascii_of_string s).

Definition lower_cp (c : Z) : Z :=
  if (65 <=? c) && (c <=? 90) then c + 32 else c.

Definition upper_cp (c : Z) : Z :=
  if (97 <=? c) && (c <=? 122) then c - 32 else c.

Definition lower (s : pystr) : pystr := map lower_cp s.
Definition upper (s : pystr) : pystr := map upper_cp s.

Fixpoint pystr_eqb (a b : pystr) : bool :=
  match a, b with
  | [], [] => true
  | x :: a', y :: b' => (x =? y) && pystr_eqb a' b'
  | _, _ => false
  end.

Fixpoint starts_with (p s : pystr) : bool :=
  match p, s with
  | [], _ => true
  | x :: p', y :: s' => (x =? y) && starts_with p' s'
  | _ :: _, [] => false
  end.

(** [contains p s] is Python's [p in s] on strings. *)
Fixpoint contains (p s : pystr) : bool :=
  starts_with p s ||
  match s with
  | [] => false
  | _ :: s' => contains p s'
  end.

(** [sep.join(parts)] *)
Fixpoint join (sep : pystr) (parts : list pystr) : pystr :=
  match parts with
  | [] => []
  | [p] => p
  | p :: rest => p ++ sep ++ join sep rest
  end.

(** [str.encode()]: UTF-8, refusing surrogate code points. *)
Definition encode_cp (c : Z) : result (list Z) :=
  if c <? 128 then Ok [c]
  else if c <? 2048 then
    Ok [Z.lor 192 (Z.shiftr c 6); Z.lor 128 (Z.land c 63)]
  else if c <? 65536 then
    if (55296 <=? c) && (c <=? 57343) then Raise UnicodeEncodeError
    else Ok [Z.lor 224 (Z.shiftr c 12);
             Z.lor 128 (Z.land (Z.shiftr c 6) 63);
             Z.lor 128 (Z.land c 63)]
  else
    Ok [Z.lor 240 (Z.shiftr c 18);
        Z.lor 128 (Z.land (Z.shiftr c 12) 63);
        Z.lor 128 (Z.land (Z.shiftr c 6) 63);
        Z.lor 128 (Z.land c 63)].

Fixpoint encode (s : pystr) : result (list Z) :=
  match s with
  | [] => Ok []
  | c :: s' =>
      bind (encode_cp c) (fun bs =>
      bind (encode s') (fun rest => Ok (bs ++ rest)))
  end.

Definition hex_digit (n : Z) : Z :=
  if n <? 10 then 48 + n else 87 + n.

Definition hex_byte (b : Z) : pystr :=
  [hex_digit (Z.shiftr b 4); hex_digit (Z.land b 15)].

(** ** hashlib.md5 *)

Module MD5.

Definition mask32 : Z := 4294967295.

Definition add32 (a b : Z) : Z := Z.land (a + b) mask32.

Definition not32 (a : Z) : Z := Z.lxor a mask32.

Definition rotl32 (x c : Z) : Z :=
  Z.land (Z.lor (Z.shiftl x c) (Z.shiftr x (32 - c))) mask32.

Definition shifts : list Z :=
  [7; 12; 17; 22; 7; 12; 17; 22; 7; 12; 17; 22; 7; 12; 17; 22;
   5; 9; 14; 20; 5; 9; 14; 20; 5; 9; 14; 20; 5; 9; 14; 20;
   4; 11; 16; 23; 4; 11; 16; 23; 4; 11; 16; 23; 4; 11; 16; 23;
   6; 10; 15; 21; 6; 10; 15; 21; 6; 10; 15; 21; 6; 10; 15; 21].

Definition sines : list Z :=
  [0xd76aa478; 0xe8c7b756; 0x242070db; 0xc1bdceee;
   0xf57c0faf; 0x4787c62a; 0xa8304613; 0xfd469501;
   0x698098d8; 0x8b44f7af; 0xffff5bb1; 0x895cd7be;
   0x6b901122; 0xfd987193; 0xa679438e; 0x49b40821;
   0xf61e2562; 0xc040b340; 0x265e5a51; 0xe9b6c7aa;
   0xd62f105d; 0x02441453; 0xd8a1e681; 0xe7d3fbc8;
   0x21e1cde6; 0xc33707d6; 0xf4d50d87; 0x455a14ed;
   0xa9e3e905; 0xfcefa3f8; 0x676f02d9; 0x8d2a4c8a;
   0xfffa3942; 0x8771f681; 0x6d9d6122; 0xfde5380c;
   0xa4beea44; 0x4bdecfa9; 0xf6bb4b60; 0xbebfbc70;
   0x289b7ec6; 0xeaa127fa; 0xd4ef3085; 0x04881d05;
   0xd9d4d039; 0xe6db99e5; 0x1fa27cf8; 0xc4ac5665;
   0xf4292244; 0x432aff97; 0xab9423a7; 0xfc93a039;
   0x655b59c3; 0x8f0ccc92; 0xffeff47d; 0x85845dd1;
   0x6fa87e4f; 0xfe2ce6e0; 0xa3014314; 0x4e0811a1;
   0xf7537e82; 0xbd3af235; 0x2ad7d2bb; 0xeb86d391].

Definition le_bytes (n : nat) (x : Z) : list Z :=
  map (fun i => Z.land (Z.shiftr x (8 * Z.of_nat i)) 255) (seq 0 n).

Fixpoint le_word (bs : list Z) : Z :=
  match bs with
  | [] => 0
  | b :: bs' => b + 256 * le_word bs'
  end.

(** Padding: a one bit, zeros up to 56 modulo 64, then the bit length. *)
Definition pad (msg : list Z) : list Z :=
  let len := Z.of_nat (length msg) in
  let zeros := Z.to_nat ((55 - len) mod 64) in
  msg ++ [128] ++ repeat 0 zeros ++ le_bytes 8 ((8 * len) mod 2 ^ 64).

Fixpoint words (n : nat) (bs : list Z) : list Z :=
  match n with
  | O => []
  | S n' => le_word (firstn 4 bs) :: words n' (skipn 4 bs)
  end.

Record state : Type := mk_state { sa : Z; sb : Z; sc : Z; sd : Z }.

Definition init : state :=
  mk_state 0x67452301 0xefcdab89 0x98badcfe 0x10325476.

Definition round (m : list Z) (st : state) (i : nat) : state :=
  let zi := Z.of_nat i in
  let '(mk_state a b c d) := st in
  let '(f, g) :=
    if zi <? 16 then (Z.lor (Z.land b c) (Z.land (not32 b) d), zi)
    else if zi <? 32 then
      (Z.lor (Z.land d b) (Z.land (not32 d) c), (5 * zi + 1) mod 16)
    else if zi <? 48 then (Z.lxor (Z.lxor b c) d, (3 * zi + 5) mod 16)
    else (Z.lxor c (Z.lor b (not32 d)), (7 * zi) mod 16) in
  let f' := add32 (add32 (add32 f a) (nth i sines 0)) (nth (Z.to_nat g) m 0) in
  mk_state d (add32 b (rotl32 f' (nth i shifts 0))) b c.

Definition block (st : state) (chunk : list Z) : state :=
  let m := words 16 chunk in
  let st' := fold_left (round m) (seq 0 64) st in
  mk_state (add32 (sa st) (sa st')) (add32 (sb st) (sb st'))
           (add32 (sc st) (sc st')) (add32 (sd st) (sd st')).

Fixpoint blocks (n : nat) (st : state) (bs : list Z) : state :=
  match n with
  | O => st
  | S n' => blocks n' (block st (firstn 64 bs)) (skipn 64 bs)
  end.

Definition digest (msg : list Z) : list Z :=
  let p := pad msg in
  let st := blocks (length p / 64) init p in
  le_bytes 4 (sa st) ++ le_bytes 4 (sb st) ++
  le_bytes 4 (sc st) ++ le_bytes 4 (sd st).

Definition hexdigest (msg : list Z) : pystr :=
  flat_map hex_byte (digest msg).

End MD5.

(** ** Cache keys *)

(** [DNSCacheManager._generate_cache_key]; a [nameserver] that is [None]
    or empty is left out of the key. *)
Definition _generate_cache_key
    (domain record_type : pystr) (nameserver : option pystr)
  : result pystr :=
  let key_parts :=
    [lower domain; upper record_type] ++
    match nameserver with
    | Some (c :: ns) => [c :: ns]
    | _ => []
    end in
  let key_string := join (str ":") key_parts in
  bind (encode key_string) (fun bytes => Ok (MD5.hexdigest bytes)).

(** ** Cached values

    [CacheEntry.value] is declared [Any]; the cache is filled with DNS
    answers: a string, a list of strings, or some other object, which
    [VInt] stands for. *)

Inductive pyvalue : Type :=
| VStr (s : pystr)
| VList (l : list pystr)
| VInt (n : Z).

Definition hex4 (c : Z) : pystr :=
  hex_byte (Z.shiftr c 8) ++ hex_byte (Z.land c 255).

(** [repr] of one character inside a string literal quoted by [q]. Exact
    for ASCII; above it the C1 controls, the no-break space, the soft
    hyphen and the surrogates are escaped and the rest is kept. *)
Definition repr_cp (q c : Z) : pystr :=
  if c =? 92 then [92; 92]
  else if c =? q then [92; q]
  else if c =? 9 then str "\t"
  else if c =? 10 then str "\n"
  else if c =? 13 then str "\r"
  else if (c <? 32) || (c =? 127) || ((128 <=? c) && (c <=? 160)) || (c =? 173)
    then str "\x" ++ hex_byte c
  else if (55296 <=? c) && (c <=? 57343) then str "\u" ++ hex4 c
  else [c].

Definition mem_cp (c : Z) (s : pystr) : bool := existsb (Z.eqb c) s.

Definition repr_str (s : pystr) : pystr :=
  let q := if mem_cp 39 s && negb (mem_cp 34 s) then 34 else 39 in
  [q] ++ flat_map (repr_cp q) s ++ [q].

(** [str(v)] *)
Definition str_of (v : pyvalue) : pystr :=
  match v with
  | VStr s => s
  | VList l => str "[" ++ join (str ", ") (map repr_str l) ++ str "]"
  | VInt n =>
      (if n <? 0 then str "-" else []) ++
      str (NilEmpty.string_of_uint (N.to_uint (Z.abs_N n)))
  end.

(** [isinstance(v, (str, list))] *)
Definition is_str_or_list (v : pyvalue) : bool :=
  match v with
  | VStr _ | VList _ => true
  | VInt _ => false
  end.

(** ** Cache entries *)

Definition timedelta_seconds (s : Z) : Z := s * 1000000.

Record CacheEntry : Type := mkEntry {
  key : pystr;
  value : pyvalue;
  created_at : Z;
  expires_at : Z;
  access_count : Z;
  last_accessed : option Z;
  ttl : Z
}.

(** [CacheEntry.is_expired], at clock reading [now] *)
Definition is_expired (e : CacheEntry) (now : Z) : bool :=
  expires_at e <? now.

(** [CacheEntry.is_stale] *)
Definition is_stale (e : CacheEntry) (stale_threshold : Z) (now : Z) : bool :=
  let stale_time := expires_at e - timedelta_seconds stale_threshold in
  stale_time <? now.

(** The two statements of [get] that update the access statistics. *)
Definition touch (e : CacheEntry) (now : Z) : CacheEntry :=
  mkEntry (key e) (value e) (created_at e) (expires_at e)
          (access_count e + 1) (Some now) (ttl e).

(** ** Configuration *)

Inductive Backend : Type := Memory | Redis | Hybrid.

Record Config : Type := mkConfig {
  backend : Backend;
  ttl_default : Z;
  ttl_min : Z;
  ttl_max : Z;
  max_entries : Z;
  cleanup_interval : Z;
  prefetch_threshold : Z;
  auto_ttl_adjustment : bool;
  ttl_adjustment_factor : Q;
  min_access_for_adjustment : Z
}.

(** [_get_default_config] *)
Definition default_config : Config :=
  mkConfig Memory 300 60 86400 10000 300 60 true (12 # 10) 10.

(** ** Dictionaries in insertion order *)

Section Dict.
Context {V : Type}.

Fixpoint dict_get (k : pystr) (d : list (pystr * V)) : option V :=
  match d with
  | [] => None
  | (k', v) :: d' => if pystr_eqb k k' then Some v else dict_get k d'
  end.

(** [d[k] = v]: an existing key keeps its place, a new one goes last. *)
Fixpoint dict_set (k : pystr) (v : V) (d : list (pystr * V))
  : list (pystr * V) :=
  match d with
  | [] => [(k, v)]
  | (k', v') :: d' =>
      if pystr_eqb k k' then (k, v) :: d' else (k', v') :: dict_set k v d'
  end.

(** [del d[k]] *)
Definition dict_del (k : pystr) (d : list (pystr * V)) : list (pystr * V) :=
  filter (fun kv => negb (pystr_eqb k (fst kv))) d.

Definition dict_mem (k : pystr) (d : list (pystr * V)) : bool :=
  existsb (fun kv => pystr_eqb k (fst kv)) d.

Definition dict_wf (d : list (pystr * V)) : Prop := NoDup (map fst d).
End Dict.

(** ** The remote tier

    What a key of the Redis database holds, seen through [pickle.loads]:
    [BDict e] is what [set] writes, the pickled [e.to_dict()], whose
    timestamps are ISO strings; [BNative e] is a pickled mapping with the
    same fields and [datetime] timestamps, which only another writer can
    have left; [BGarbage] is anything [pickle.loads] or the [CacheEntry]
    constructor rejects. A server that is not [alive] fails every command.
    The server's own expiry of keys is not modelled. *)

Inductive Blob : Type :=
| BDict (e : CacheEntry)
| BNative (e : CacheEntry)
| BGarbage.

Record RedisServer : Type := mkRedis {
  alive : bool;
  db : list (pystr * Blob)
}.

Definition redis_get (r : RedisServer) (k : pystr) : result (option Blob) :=
  if alive r then Ok (dict_get k (db r)) else Raise ConnectionError.

Definition redis_setex (r : RedisServer) (k : pystr) (seconds : Z) (b : Blob)
  : result RedisServer :=
  if negb (alive r) then Raise ConnectionError
  else if seconds <=? 0 then Raise ResponseError
  else Ok (mkRedis true (dict_set k b (db r))).

Definition redis_delete (r : RedisServer) (ks : list pystr)
  : result (Z * RedisServer) :=
  if alive r then
    let hit kv := existsb (fun k => pystr_eqb k (fst kv)) ks in
    Ok (Z.of_nat (length (filter hit (db r))),
        mkRedis true (filter (fun kv => negb (hit kv)) (db r)))
  else Raise ConnectionError.

Definition redis_keys (r : RedisServer) : result (list pystr) :=
  if alive r then Ok (map fst (db r)) else Raise ConnectionError.

Definition redis_flushdb (r : RedisServer) : result (bool * RedisServer) :=
  if alive r then Ok (true, mkRedis true []) else Raise ConnectionError.

(** [pickle.loads] followed by the [CacheEntry] constructor: the entry and
    whether its timestamps are [datetime] objects. *)
Definition unpickle (b : Blob) : result (CacheEntry * bool) :=
  match b with
  | BDict e => Ok (e, false)
  | BNative e => Ok (e, true)
  | BGarbage => Raise UnpicklingError
  end.

(** [is_expired] on an unpickled entry: comparing [datetime.now()] with
    a string raises. *)
Definition remote_is_expired (re : CacheEntry * bool) (now : Z) : result bool :=
  if snd re then Ok (is_expired (fst re) now) else Raise TypeError.

(** ** The manager *)

(** A coroutine handed to [asyncio.create_task] and not yet run. *)
Inductive Task : Type :=
| PrefetchTask (domain record_type : pystr) (nameserver : option pystr).

Record Manager : Type := mkManager {
  cache_backend : Backend;
  memory_cache : list (pystr * CacheEntry);
  redis_client : option RedisServer;
  hits : Z;
  misses : Z;
  sets : Z;
  deletes : Z;
  evictions : Z;
  tasks : list Task
}.

Definition set_memory (d : list (pystr * CacheEntry)) (m : Manager) : Manager :=
  mkManager (cache_backend m) d (redis_client m)
            (hits m) (misses m) (sets m) (deletes m) (evictions m) (tasks m).

Definition set_redis (r : RedisServer) (m : Manager) : Manager :=
  mkManager (cache_backend m) (memory_cache m) (Some r)
            (hits m) (misses m) (sets m) (deletes m) (evictions m) (tasks m).

Definition bump_hits (m : Manager) : Manager :=
  mkManager (cache_backend m) (memory_cache m) (redis_client m)
            (hits m + 1) (misses m) (sets m) (deletes m) (evictions m) (tasks m).

Definition bump_misses (m : Manager) : Manager :=
  mkManager (cache_backend m) (memory_cache m) (redis_client m)
            (hits m) (misses m + 1) (sets m) (deletes m) (evictions m) (tasks m).

Definition bump_sets (m : Manager) : Manager :=
  mkManager (cache_backend m) (memory_cache m) (redis_client m)
            (hits m) (misses m) (sets m + 1) (deletes m) (evictions m) (tasks m).

Definition bump_deletes (m : Manager) : Manager :=
  mkManager (cache_backend m) (memory_cache m) (redis_client m)
            (hits m) (misses m) (sets m) (deletes m + 1) (evictions m) (tasks m).

Definition bump_evictions (m : Manager) : Manager :=
  mkManager (cache_backend m) (memory_cache m) (redis_client m)
            (hits m) (misses m) (sets m) (deletes m) (evictions m + 1) (tasks m).

Definition create_task (t : Task) (m : Manager) : Manager :=
  mkManager (cache_backend m) (memory_cache m) (redis_client m)
            (hits m) (misses m) (sets m) (deletes m) (evictions m)
            (tasks m ++ [t]).

(** [__init__] followed by [_initialize_backend]; [server] is what
    [redis.Redis(...)] connects to, [None] when the constructor raises.
    A failed probe turns the [redis] backend into [memory] and leaves
    [hybrid] as it is. *)
Definition new_manager (cfg : Config) (server : option RedisServer) : Manager :=
  let fresh b r := mkManager b [] r 0 0 0 0 0 [] in
  match backend cfg with
  | Memory => fresh Memory None
  | b =>
      match server with
      | Some r =>
          if alive r then fresh b (Some r)
          else fresh (match b with Redis => Memory | _ => b end) (Some r)
      | None => fresh (match b with Redis => Memory | _ => b end) None
      end
  end.

(** [self.redis_client and self.cache_backend in ['redis', 'hybrid']] *)
Definition remote_tier (m : Manager) : option RedisServer :=
  match cache_backend m with
  | Memory => None
  | _ => redis_client m
  end.

(** An outer [try: ... except Exception:] whose handler returns a value. *)
Definition try_except {A : Type}
    (body : result A * Manager) (handler : Manager -> A * Manager)
  : result A * Manager :=
  match body with
  | (Ok a, m) => (Ok a, m)
  | (Raise _, m) => let '(a, m') := handler m in (Ok a, m')
  end.

(** *** get *)

(** The Redis branch of [get], with its own [try]: the value on a hit. *)
Definition get_remote (now : nat -> Z) (cache_key : pystr)
    (r : RedisServer) (m : Manager) : option pyvalue * Manager :=
  match redis_get r cache_key with
  | Raise _ => (None, m)
  | Ok None => (None, m)
  | Ok (Some redis_data) =>
      match unpickle redis_data with
      | Raise _ => (None, m)
      | Ok re =>
          match remote_is_expired re (now 0%nat) with
          | Raise _ => (None, m)
          | Ok false =>
              let entry := touch (fst re) (now 1%nat) in
              let m1 :=
                match cache_backend m with
                | Hybrid => set_memory (dict_set cache_key entry (memory_cache m)) m
                | _ => m
                end in
              (Some (value entry), bump_hits m1)
          | Ok true =>
              match redis_delete r [cache_key] with
              | Raise _ => (None, m)
              | Ok (_, r') => (None, set_redis r' m)
              end
          end
      end
  end.

Definition get_body (cfg : Config) (now : nat -> Z)
    (domain record_type : pystr) (nameserver : option pystr)
    (cache_key : pystr) (m : Manager) : result (option pyvalue) * Manager :=
  match dict_get cache_key (memory_cache m) with
  | Some entry =>
      if is_expired entry (now 0%nat) then
        (Ok None, bump_misses (set_memory (dict_del cache_key (memory_cache m)) m))
      else
        let entry := touch entry (now 1%nat) in
        let m1 := bump_hits (set_memory (dict_set cache_key entry (memory_cache m)) m) in
        let m2 :=
          if is_stale entry (prefetch_threshold cfg) (now 2%nat)
          then create_task (PrefetchTask domain record_type nameserver) m1
          else m1 in
        (Ok (Some (value entry)), m2)
  | None =>
      let '(found, m1) :=
        match remote_tier m with
        | Some r => get_remote now cache_key r m
        | None => (None, m)
        end in
      match found with
      | Some v => (Ok (Some v), m1)
      | None => (Ok None, bump_misses m1)
      end
  end.

(** [DNSCacheManager.get]: the value, or [None]. The key is computed
    before the [try]. *)
Definition get (cfg : Config) (now : nat -> Z)
    (domain record_type : pystr) (nameserver : option pystr) (m : Manager)
  : result (option pyvalue) * Manager :=
  match _generate_cache_key domain record_type nameserver with
  | Raise e => (Raise e, m)
  | Ok cache_key =>
      try_except (get_body cfg now domain record_type nameserver cache_key m)
                 (fun m' => (None, bump_misses m'))
  end.

(** *** Eviction *)

(** The sort key of [_evict_lru_entries]: [last_accessed or created_at]. *)
Definition access_time (e : CacheEntry) : Z :=
  match last_accessed e with
  | Some t => t
  | None => created_at e
  end.

(** [sorted(items, key=...)]: a stable sort, here by insertion. *)
Fixpoint insert_by_time (x : pystr * CacheEntry) (l : list (pystr * CacheEntry))
  : list (pystr * CacheEntry) :=
  match l with
  | [] => [x]
  | y :: l' =>
      if access_time (snd x) <=? access_time (snd y) then x :: y :: l'
      else y :: insert_by_time x l'
  end.

Definition sort_by_time (l : list (pystr * CacheEntry))
  : list (pystr * CacheEntry) :=
  fold_right insert_by_time [] l.

(** [int(max_entries * 0.9)] *)
Definition target_size (cfg : Config) : Z := Z.quot (max_entries cfg * 9) 10.

(** The removal loop: [sorted_entries[i]] for [i] below [n], each removal
    counted; an index past the end raises. *)
Fixpoint evict_loop (sorted_entries : list (pystr * CacheEntry)) (n : nat)
    (m : Manager) : result unit * Manager :=
  match n with
  | O => (Ok tt, m)
  | S n' =>
      match sorted_entries with
      | [] => (Raise IndexError, m)
      | (cache_key, _) :: rest =>
          evict_loop rest n'
            (bump_evictions (set_memory (dict_del cache_key (memory_cache m)) m))
      end
  end.

(** [DNSCacheManager._evict_lru_entries] *)
Definition _evict_lru_entries (cfg : Config) (m : Manager)
  : result unit * Manager :=
  let sorted_entries := sort_by_time (memory_cache m) in
  let entries_to_remove :=
    Z.of_nat (length sorted_entries) - target_size cfg in
  evict_loop sorted_entries (Z.to_nat entries_to_remove) m.

(** *** set *)

(** The TTL limits of [set] and [optimize_ttl]. *)
Definition clamp_ttl (cfg : Config) (t : Z) : Z :=
  Z.max (ttl_min cfg) (Z.min t (ttl_max cfg)).

(** The entry [set] builds at clock reading [now] from a clamped [ttl]. *)
Definition new_entry (cache_key : pystr) (v : pyvalue) (now ttl : Z)
  : CacheEntry :=
  mkEntry cache_key v now (now + timedelta_seconds ttl) 0 (Some now) ttl.

(** The write-through of [set], with its own [try]. *)
Definition set_remote (cache_key : pystr) (ttl : Z) (entry : CacheEntry)
    (m : Manager) : Manager :=
  match remote_tier m with
  | Some r =>
      match redis_setex r cache_key ttl (BDict entry) with
      | Ok r' => set_redis r' m
      | Raise _ => m
      end
  | None => m
  end.

Definition set_body (cfg : Config) (now : nat -> Z)
    (cache_key : pystr) (v : pyvalue) (ttl : Z) (m : Manager)
  : result bool * Manager :=
  let entry := new_entry cache_key v (now 0%nat) ttl in
  let m1 := set_memory (dict_set cache_key entry (memory_cache m)) m in
  let '(evicted, m2) :=
    if Z.of_nat (length (memory_cache m1)) >? max_entries cfg
    then _evict_lru_entries cfg m1
    else (Ok tt, m1) in
  match evicted with
  | Raise e => (Raise e, m2)
  | Ok _ => (Ok true, bump_sets (set_remote cache_key ttl entry m2))
  end.

(** [DNSCacheManager.set]; [ttl] is [None] when the caller gives none. *)
Definition set (cfg : Config) (now : nat -> Z)
    (domain record_type : pystr) (v : pyvalue) (ttl : option Z)
    (nameserver : option pystr) (m : Manager) : result bool * Manager :=
  match _generate_cache_key domain record_type nameserver with
  | Raise e => (Raise e, m)
  | Ok cache_key =>
      let ttl := match ttl with
                 | Some t => t
                 | None => ttl_default cfg
                 end in
      let ttl := clamp_ttl cfg ttl in
      try_except (set_body cfg now cache_key v ttl m)
                 (fun m' => (false, m'))
  end.

(** *** delete *)

Definition delete_body (cache_key : pystr) (m : Manager)
  : result bool * Manager :=
  let '(deleted, m1) :=
    if dict_mem cache_key (memory_cache m)
    then (true, set_memory (dict_del cache_key (memory_cache m)) m)
    else (false, m) in
  let '(deleted, m2) :=
    match remote_tier m1 with
    | Some r =>
        match redis_delete r [cache_key] with
        | Ok (redis_deleted, r') =>
            (deleted || negb (redis_deleted =? 0), set_redis r' m1)
        | Raise _ => (deleted, m1)
        end
    | None => (deleted, m1)
    end in
  (Ok deleted, if deleted then bump_deletes m2 else m2).

(** [DNSCacheManager.delete] *)
Definition delete (domain record_type : pystr) (nameserver : option pystr)
    (m : Manager) : result bool * Manager :=
  match _generate_cache_key domain record_type nameserver with
  | Raise e => (Raise e, m)
  | Ok cache_key =>
      try_except (delete_body cache_key m) (fun m' => (false, m'))
  end.

(** *** invalidate_domain *)

(** The test of [invalidate_domain] on one key and its value:
    [domain_lower in cache_key], or the value is a string or a list whose
    [str] contains [domain_lower]. *)
Definition mentions (domain_lower cache_key : pystr) (v : pyvalue) : bool :=
  contains domain_lower cache_key ||
  (is_str_or_list v && contains domain_lower (str_of v)).

(** The second loop of the memory part: one deletion and one count per key. *)
Fixpoint delete_keys (ks : list pystr) (count : Z) (m : Manager) : Z * Manager :=
  match ks with
  | [] => (count, m)
  | k :: ks' =>
      delete_keys ks' (count + 1)
        (set_memory (dict_del k (memory_cache m)) m)
  end.

(** The test of the Redis part on one key, with its own [try]. *)
Definition remote_mentions (domain_lower : pystr) (r : RedisServer) (k : pystr)
  : bool :=
  match redis_get r k with
  | Ok (Some redis_data) =>
      match unpickle redis_data with
      | Ok re => mentions domain_lower k (value (fst re))
      | Raise _ => false
      end
  | _ => false
  end.

Definition invalidate_remote (domain_lower : pystr) (deleted_count : Z)
    (m : Manager) : Z * Manager :=
  match remote_tier m with
  | Some r =>
      match redis_keys r with
      | Raise _ => (deleted_count, m)
      | Ok all_keys =>
          match filter (remote_mentions domain_lower r) all_keys with
          | [] => (deleted_count, m)
          | keys_to_delete =>
              match redis_delete r keys_to_delete with
              | Ok (redis_deleted, r') =>
                  (deleted_count + redis_deleted, set_redis r' m)
              | Raise _ => (deleted_count, m)
              end
          end
      end
  | None => (deleted_count, m)
  end.

(** [DNSCacheManager.invalidate_domain] *)
Definition invalidate_domain (domain : pystr) (m : Manager)
  : result Z * Manager :=
  let domain_lower := lower domain in
  let keys_to_delete :=
    map fst
      (filter (fun kv => mentions domain_lower (fst kv) (value (snd kv)))
              (memory_cache m)) in
  let '(deleted_count, m1) := delete_keys keys_to_delete 0 m in
  let '(deleted_count, m2) := invalidate_remote domain_lower deleted_count m1 in
  (Ok deleted_count, m2).

(** *** The periodic sweep *)

Fixpoint expired_keys (now : nat -> Z) (i : nat) (d : list (pystr * CacheEntry))
  : list pystr :=
  match d with
  | [] => []
  | (k, e) :: d' =>
      if is_expired e (now i) then k :: expired_keys now (S i) d'
      else expired_keys now (S i) d'
  end.

(** One round of [_periodic_cleanup], after its sleep. *)
Definition cleanup (now : nat -> Z) (m : Manager) : Manager :=
  fold_left (fun m' k => set_memory (dict_del k (memory_cache m')) m')
            (expired_keys now 0 (memory_cache m)) m.

(** *** clear_cache *)

(** [flushdb] answers [True], which the sum counts as one. *)
Definition clear_cache (m : Manager) : Z * Manager :=
  let memory_count := Z.of_nat (length (memory_cache m)) in
  let m1 := set_memory [] m in
  match remote_tier m1 with
  | Some r =>
      match redis_flushdb r with
      | Ok (_, r') => (memory_count + 1, set_redis r' m1)
      | Raise _ => (memory_count, m1)
      end
  | None => (memory_count, m1)
  end.

(** *** optimize_ttl *)

(** [int(q)]: truncation towards zero. *)
Definition int_of_Q (q : Q) : Z := Z.quot (Qnum q) (Zpos (Qden q)).

(** [max(1, q)] *)
Definition max_one (q : Q) : Q := if Qle_bool q 1 then 1%Q else q.

(** [entry.access_count / max(1, age.total_seconds() / 3600)] *)
Definition access_per_hour (e : CacheEntry) (now : Z) : Q :=
  (inject_Z (access_count e) /
   max_one (inject_Z (now - created_at e) / inject_Z 1000000 / 3600))%Q.

Definition optimal_ttl (cfg : Config) (e : CacheEntry) (now : Z) : result Z :=
  let rate := access_per_hour e now in
  let factor := ttl_adjustment_factor cfg in
  bind
    (if negb (Qle_bool rate 10) then
       Ok (int_of_Q (inject_Z (ttl e) * factor))
     else if negb (Qle_bool 1 rate) then
       if Qeq_bool factor 0 then Raise ZeroDivisionError
       else Ok (int_of_Q (inject_Z (ttl e) / factor))
     else Ok (ttl e))
    (fun t => Ok (clamp_ttl cfg t)).

(** [DNSCacheManager.optimize_ttl]; the access pattern argument is not
    used by the code. Everything after the first test is inside the
    [try], the key included. *)
Definition optimize_ttl (cfg : Config) (now : nat -> Z)
    (domain record_type : pystr) (m : Manager) : Z :=
  if negb (auto_ttl_adjustment cfg) then ttl_default cfg
  else
    let body :=
      bind (_generate_cache_key domain record_type None) (fun cache_key =>
        match dict_get cache_key (memory_cache m) with
        | Some entry =>
            if min_access_for_adjustment cfg <=? access_count entry
            then optimal_ttl cfg entry (now 0%nat)
            else Ok (ttl_default cfg)
        | None => Ok (ttl_default cfg)
        end) in
    match body with
    | Ok t => t
    | Raise _ => ttl_default cfg
    end.

(** *** Runs of the manager *)

(** [_prefetch_record] only logs, so running the pending tasks empties
    the queue and changes nothing else. *)
Definition run_tasks (m : Manager) : Manager :=
  mkManager (cache_backend m) (memory_cache m) (redis_client m)
            (hits m) (misses m) (sets m) (deletes m) (evictions m) [].

Inductive Op : Type :=
| OpGet (now : nat -> Z) (domain record_type : pystr) (nameserver : option pystr)
| OpSet (now : nat -> Z) (domain record_type : pystr) (v : pyvalue)
        (ttl : option Z) (nameserver : option pystr)
| OpDelete (domain record_type : pystr) (nameserver : option pystr)
| OpInvalidate (domain : pystr)
| OpCleanup (now : nat -> Z)
| OpClear
| OpRunTasks.

Definition step (cfg : Config) (m : Manager) (o : Op) : Manager :=
  match o with
  | OpGet now d t ns => snd (get cfg now d t ns m)
  | OpSet now d t v ttl ns => snd (set cfg now d t v ttl ns m)
  | OpDelete d t ns => snd (delete d t ns m)
  | OpInvalidate d => snd (invalidate_domain d m)
  | OpCleanup now => cleanup now m
  | OpClear => snd (clear_cache m)
  | OpRunTasks => run_tasks m
  end.

Definition run (cfg : Config) (ops : list Op) (m : Manager) : Manager :=
  fold_left (step cfg) ops m.

(** A clock that stands still during a call. *)
Definition at_time (t : Z) : nat -> Z := fun _ => t.

(** The [set] of the examples: a string value stored at time 0 with the
    default TTL and no nameserver. *)
Definition put (d t v : string) : Op :=
  OpSet (at_time 0) (str d) (str t) (VStr (str v)) None None.

(** The default configuration with another capacity. *)
Definition with_max_entries (n : Z) : Config :=
  mkConfig Memory 300 60 86400 n 300 60 true (12 # 10) 10.

(** ** Vocabulary of the properties *)

(** A character of a hexadecimal digest. *)
Definition is_hex (c : Z) : bool :=
  ((48 <=? c) && (c <=? 57)) || ((97 <=? c) && (c <=? 102)).

(** What is left of a dictionary once the keys [ks] are deleted. *)
Definition remove_keys {V : Type} (ks : list pystr) (d : list (pystr * V))
  : list (pystr * V) :=
  filter (fun kv => negb (existsb (fun k => pystr_eqb k (fst kv)) ks)) d.


(** The order of eviction: by access time. *)
Definition time_le (a b : pystr * CacheEntry) : Prop :=
  access_time (snd a) <= access_time (snd b).

(** The manager after the keys [ks] were evicted one by one. *)
Definition evicted_manager (ks : list pystr) (m : Manager) : Manager :=
  mkManager (cache_backend m) (remove_keys ks (memory_cache m))
            (redis_client m) (hits m) (misses m) (sets m) (deletes m)
            (evictions m + Z.of_nat (length ks)) (tasks m).

(** The TTL that [set] works with: the caller's or the default, clamped. *)
Definition effective_ttl (cfg : Config) (ttl : option Z) : Z :=
  clamp_ttl cfg match ttl with
                | Some t => t
                | None => ttl_default cfg
                end.

(** The two invariants of an entry: its TTL within the configured
    limits, and its expiry one TTL after its creation. *)
Definition entry_ok (cfg : Config) (e : CacheEntry) : Prop :=
  ttl_min cfg <= ttl e <= ttl_max cfg /\
  expires_at e = created_at e + ttl e * 1000000.

Definition store_ok (cfg : Config) (d : list (pystr * CacheEntry)) : Prop :=
  Forall (fun kv => entry_ok cfg (snd kv)) d.

(** The remote tier holds no entry of another writer that breaks them. *)
Definition blob_ok (cfg : Config) (b : Blob) : Prop :=
  match b with
  | BNative e => entry_ok cfg e
  | _ => True
  end.

Definition remote_ok (cfg : Config) (r : option RedisServer) : Prop :=
  match r with
  | Some r => Forall (fun kb => blob_ok cfg (snd kb)) (db r)
  | None => True
  end.

(** What every run keeps: the entries in memory satisfy the two
    invariants, the remote tier holds nothing that would break them, and
    the memory cache has one entry per key. *)
Definition manager_ok (cfg : Config) (m : Manager) : Prop :=
  store_ok cfg (memory_cache m) /\
  remote_ok cfg (redis_client m) /\
  dict_wf (memory_cache m).

(** ** Statistics *)

Record CacheStats : Type := mkStats {
  total_entries : Z;
  hit_rate : Q;
  miss_rate : Q;
  expired_entries : Z;
  memory_usage : Z;
  avg_ttl : Q;
  most_accessed : list pystr
}.

(** [sorted(pairs, key=lambda x: x[1], reverse=True)]: by decreasing
    count, pairs of equal count staying in their order. *)
Fixpoint insert_by_count (x : pystr * Z) (l : list (pystr * Z))
  : list (pystr * Z) :=
  match l with
  | [] => [x]
  | y :: l' =>
      if snd y <=? snd x then x :: y :: l' else y :: insert_by_count x l'
  end.

Definition sort_by_count (l : list (pystr * Z)) : list (pystr * Z) :=
  fold_right insert_by_count [] l.

(** [sum(1 for entry in ... if entry.is_expired())], one clock reading
    per entry. *)
Fixpoint count_expired (now : nat -> Z) (i : nat) (d : list (pystr * CacheEntry))
  : Z :=
  match d with
  | [] => 0
  | (_, e) :: d' =>
      (if is_expired e (now i) then 1 else 0) + count_expired now (S i) d'
  end.

Definition sum_ttl (d : list (pystr * CacheEntry)) : Z :=
  fold_right (fun kv acc => ttl (snd kv) + acc) 0 d.

(** [DNSCacheManager.get_cache_stats]; [sizeof_dict] and [sizeof_value]
    stand for [sys.getsizeof] on the dictionary and on a value. *)
Definition get_cache_stats
    (sizeof_dict : list (pystr * CacheEntry) -> Z) (sizeof_value : pyvalue -> Z)
    (now : nat -> Z) (m : Manager) : CacheStats :=
  let total_requests := hits m + misses m in
  let hit_rate :=
    if 0 <? total_requests
    then (inject_Z (hits m) / inject_Z total_requests)%Q
    else 0%Q in
  let miss_rate := (1 - hit_rate)%Q in
  let expired_count := count_expired now 0 (memory_cache m) in
  let memory_usage :=
    fold_left (fun acc kv => acc + sizeof_value (value (snd kv)))
              (memory_cache m) (sizeof_dict (memory_cache m)) in
  let avg_ttl :=
    match memory_cache m with
    | [] => 0%Q
    | _ => (inject_Z (sum_ttl (memory_cache m)) /
            inject_Z (Z.of_nat (length (memory_cache m))))%Q
    end in
  let most_accessed :=
    firstn 10
      (sort_by_count
         (map (fun kv => (fst kv, access_count (snd kv))) (memory_cache m))) in
  mkStats (Z.of_nat (length (memory_cache m))) hit_rate miss_rate
          expired_count memory_usage avg_ttl (map fst most_accessed).

(** ** Further vocabulary *)

(** A code point that UTF-8 refuses. *)
Definition is_surrogate (c : Z) : bool := (55296 <=? c) && (c <=? 57343).

(** The strings that go into a key. *)
Definition key_strings (domain record_type : pystr) (nameserver : option pystr)
  : list pystr :=
  [domain; record_type] ++
  match nameserver with
  | Some ns => [ns]
  | None => []
  end.

(** The shape of a digest: 32 hexadecimal digits. *)
Definition is_digest (k : pystr) : Prop :=
  length k = 32%nat /\ forallb is_hex k = true.

(** The part of a manager that lives in the process: everything but the
    Redis client. *)
Definition local_view (m : Manager)
  : Backend * list (pystr * CacheEntry) * (Z * Z * Z * Z * Z) * list Task :=
  (cache_backend m, memory_cache m,
   (hits m, misses m, sets m, deletes m, evictions m), tasks m).

(** The same manager with no Redis client. *)
Definition without_remote (m : Manager) : Manager :=
  mkManager (cache_backend m) (memory_cache m) None
            (hits m) (misses m) (sets m) (deletes m) (evictions m) (tasks m).


(** No counter is smaller in [m'] than in [m]. *)
Definition counters_le (m m' : Manager) : Prop :=
  hits m <= hits m' /\ misses m <= misses m' /\ sets m <= sets m' /\
  deletes m <= deletes m' /\ evictions m <= evictions m'.

(** How one operation may change the memory cache: it deletes entries
    ([filter]), after storing at most one entry under a key that is a
    digest; [may_insert] tells whether that key may be a new one. *)
Definition memory_step (m m' : Manager) (may_insert : bool) : Prop :=
  exists f d0,
    memory_cache m' = filter f d0 /\
    (d0 = memory_cache m \/
     exists k e, is_digest k /\ d0 = dict_set k e (memory_cache m) /\
                 (dict_get k (memory_cache m) = None -> may_insert = true)).

Definition local_step (m m' : Manager) (may_insert : bool) : Prop :=
  cache_backend m' = cache_backend m /\
  counters_le m m' /\
  memory_step m m' may_insert.

Definition is_hybrid (b : Backend) : bool :=
  match b with
  | Hybrid => true
  | _ => false
  end.

(** Whether an operation of a run may store a new key. *)
Definition may_insert_of (m : Manager) (o : Op) : bool :=
  match o with
  | OpSet _ _ _ _ _ _ => true
  | OpGet _ _ _ _ => is_hybrid (cache_backend m)
  | _ => false
  end.

(** * Properties *)

(** ** The hash against known digests *)

Example md5_empty :
  MD5.hexdigest [] = str "d41d8cd98f00b204e9800998ecf8427e".
Proof. vm_compute. reflexivity. Qed.

Example md5_abc :
  bind (encode (str "abc")) (fun b => Ok (MD5.hexdigest b))
  = Ok (str "900150983cd24fb0d6963f7d28e17f72").
Proof. vm_compute. reflexivity. Qed.

Example md5_two_blocks :
  MD5.hexdigest (repeat 97 100) = str "36a92cc94a9e0fa21f625f8bfb007adf".
Proof. vm_compute. reflexivity. Qed.

Example key_example_com_A :
  _generate_cache_key (str "Example.COM") (str "a") None
  = Ok (str "bc6fa0606cd95fb7d9bbfc62bf165834").
Proof. vm_compute. reflexivity. Qed.

Example key_with_nameserver :
  _generate_cache_key (str "example.com") (str "A") (Some (str "8.8.8.8"))
  = Ok (str "8faff07522a21774aee3bddb3263dba0").
Proof. vm_compute. reflexivity. Qed.

(** ** Strings and dictionaries *)

Lemma pystr_eqb_spec (a b : pystr) : pystr_eqb a b = true <-> a = b.
Proof.
  revert b; induction a as [|x a IH]; intros [|y b]; simpl;
    try (split; [discriminate | congruence]); [tauto|].
  rewrite andb_true_iff, Z.eqb_eq, IH.
  split; [intros [-> ->]; reflexivity | intros [= -> ->]; auto].
Qed.

Lemma pystr_eqb_refl (a : pystr) : pystr_eqb a a = true.
Proof. apply pystr_eqb_spec; reflexivity. Qed.

Lemma pystr_eqb_neq (a b : pystr) : a <> b -> pystr_eqb a b = false.
Proof.
  intros H; destruct (pystr_eqb a b) eqn:E; [|reflexivity].
  apply pystr_eqb_spec in E; contradiction.
Qed.





Section DictFacts.
Context {V : Type}.
Implicit Types (d : list (pystr * V)) (k : pystr) (v : V).

Lemma dict_get_set_same k v d : dict_get k (dict_set k v d) = Some v.
Proof.
  induction d as [|[k' v'] d IH]; simpl.
  - rewrite pystr_eqb_refl; reflexivity.
  - destruct (pystr_eqb k k') eqn:E; simpl.
    + rewrite pystr_eqb_refl; reflexivity.
    + rewrite E; exact IH.
Qed.

Lemma dict_get_del_same k d : dict_get k (dict_del k d) = None.
Proof.
  unfold dict_del.
  induction d as [|[k' v'] d IH]; simpl; [reflexivity|].
  destruct (pystr_eqb k k') eqn:E; simpl; [exact IH|].
  rewrite E; exact IH.
Qed.

Lemma dict_get_In k v d : dict_get k d = Some v -> In (k, v) d.
Proof.
  induction d as [|[k' v'] d IH]; simpl; [discriminate|].
  destruct (pystr_eqb k k') eqn:E.
  - apply pystr_eqb_spec in E; subst; intros [= ->]; auto.
  - auto.
Qed.

Lemma dict_get_None k d : dict_get k d = None -> ~ In k (map fst d).
Proof.
  induction d as [|[k' v'] d IH]; simpl; [tauto|].
  destruct (pystr_eqb k k') eqn:E; [discriminate|].
  intros H [<-|Hin]; [rewrite pystr_eqb_refl in E; discriminate|].
  exact (IH H Hin).
Qed.

Lemma dict_set_new k v d : dict_get k d = None -> dict_set k v d = d ++ [(k, v)].
Proof.
  induction d as [|[k' v'] d IH]; simpl; [reflexivity|].
  destruct (pystr_eqb k k'); [discriminate|].
  intros H; rewrite (IH H); reflexivity.
Qed.

Lemma dict_set_length_old k v v0 d :
  dict_get k d = Some v0 -> length (dict_set k v d) = length d.
Proof.
  induction d as [|[k' v'] d IH]; simpl; [discriminate|].
  destruct (pystr_eqb k k'); simpl; [reflexivity|].
  intros H; rewrite (IH H); reflexivity.
Qed.

Lemma dict_set_keys_old k v v0 d :
  dict_get k d = Some v0 -> map fst (dict_set k v d) = map fst d.
Proof.
  induction d as [|[k' v'] d IH]; simpl; [discriminate|].
  destruct (pystr_eqb k k') eqn:E; simpl.
  - apply pystr_eqb_spec in E; subst; reflexivity.
  - intros H; rewrite (IH H); reflexivity.
Qed.

Lemma dict_set_In k v d x :
  In x (dict_set k v d) -> x = (k, v) \/ In x d.
Proof.
  induction d as [|[k' v'] d IH]; simpl.
  - intros [<-|[]]; auto.
  - destruct (pystr_eqb k k'); simpl.
    + intros [<-|H]; auto.
    + intros [<-|H]; auto. destruct (IH H); auto.
Qed.

Lemma dict_del_In k d x : In x (dict_del k d) -> In x d.
Proof. unfold dict_del; intros H; apply filter_In in H; tauto. Qed.

Lemma dict_set_wf k v d : dict_wf d -> dict_wf (dict_set k v d).
Proof.
  unfold dict_wf; intros H.
  destruct (dict_get k d) as [v0|] eqn:E.
  - rewrite (dict_set_keys_old _ _ _ _ E); exact H.
  - rewrite (dict_set_new _ _ _ E), map_app; simpl.
    apply NoDup_app_remove_l with (l := []); simpl.
    apply Permutation_NoDup with (l := k :: map fst d).
    + apply Permutation_cons_append.
    + constructor; [apply dict_get_None; exact E | exact H].
Qed.

Lemma map_fst_filter_NoDup (f : pystr * V -> bool) d :
  NoDup (map fst d) -> NoDup (map fst (filter f d)).
Proof.
  induction d as [|x d IH]; simpl; [auto|].
  intros H; inversion H as [|? ? Hn Hd]; subst.
  destruct (f x); simpl; [|auto].
  constructor; [|auto].
  intros Hin; apply Hn.
  apply in_map_iff in Hin; destruct Hin as [y [Hy Hin]].
  apply filter_In in Hin; rewrite <- Hy; apply in_map; tauto.
Qed.

Lemma dict_del_wf k d : dict_wf d -> dict_wf (dict_del k d).
Proof. apply map_fst_filter_NoDup. Qed.
End DictFacts.

(** ** Cache keys *)



(** ** Exceptions reaching the caller *)

(** C2. A domain holding a lone surrogate, here the string that Python
    makes of the byte 0xFF in a command-line argument followed by
    [.com]: the key is computed before the [try], so the encoding error
    leaves [get], [set] and [delete]; the manager is unchanged. *)
Theorem cache_operations_raise_on_surrogate
    cfg now (t : pystr) v ttl (ns : option pystr) (m : Manager) :
  let d := 56575 :: str ".com" in
  get cfg now d t ns m = (Raise UnicodeEncodeError, m) /\
  set cfg now d t v ttl ns m = (Raise UnicodeEncodeError, m) /\
  delete d t ns m = (Raise UnicodeEncodeError, m).
Proof.
  assert (K : _generate_cache_key (56575 :: str ".com") t ns
              = Raise UnicodeEncodeError).
  { unfold _generate_cache_key. destruct ns as [[|c ns]|]; reflexivity. }
  simpl; unfold get, set, delete; rewrite K; auto.
Qed.

(** When the key can be computed the four operations return normally,
    whatever the remote tier does. *)
Lemma operations_return_when_key_exists cfg now d t v ttl ns m k :
  _generate_cache_key d t ns = Ok k ->
  (exists r, fst (get cfg now d t ns m) = Ok r) /\
  (exists b, fst (set cfg now d t v ttl ns m) = Ok b) /\
  (exists b, fst (delete d t ns m) = Ok b) /\
  (exists n, fst (invalidate_domain d m) = Ok n).
Proof.
  intros K; unfold get, set, delete, invalidate_domain; rewrite K.
  repeat split.
  - destruct (get_body cfg now d t ns k m) as [[a|e] m']; simpl; eauto.
  - destruct (set_body cfg now k v
                (clamp_ttl cfg match ttl with Some t0 => t0 | None => ttl_default cfg end)
                m) as [[a|e] m']; simpl; eauto.
  - destruct (delete_body k m) as [[a|e] m']; simpl; eauto.
  - destruct (delete_keys _ 0 m) as [c m1].
    destruct (invalidate_remote (lower d) c m1) as [c' m2]; simpl; eauto.
Qed.

(** ** Staleness *)




(** ** Lazy expiry *)

(** C4. A [get] on a key whose memory entry has [now > expires_at]
    returns [None], removes the entry from the memory cache, counts one
    miss and no hit, whether or not the periodic sweep has run. *)
Theorem get_expired_is_miss cfg now d t ns (m : Manager) k e :
  _generate_cache_key d t ns = Ok k ->
  dict_get k (memory_cache m) = Some e ->
  expires_at e < now 0%nat ->
  fst (get cfg now d t ns m) = Ok None /\
  memory_cache (snd (get cfg now d t ns m)) = dict_del k (memory_cache m) /\
  dict_get k (memory_cache (snd (get cfg now d t ns m))) = None /\
  misses (snd (get cfg now d t ns m)) = misses m + 1 /\
  hits (snd (get cfg now d t ns m)) = hits m.
Proof.
  intros K G H.
  unfold get, get_body; rewrite K, G.
  unfold is_expired; apply Z.ltb_lt in H; rewrite H; simpl.
  repeat split; apply dict_get_del_same.
Qed.

Lemma get_expired_is_miss_witness :
  let cfg := default_config in
  let d := str "example.com" in
  let m := snd (set cfg (at_time 0) d (str "A") (VStr (str "1.2.3.4"))
                    (Some 60) None (new_manager cfg None)) in
  fst (get cfg (at_time 61000000) d (str "A") None m) = Ok None.
Proof.
  intros cfg d m.
  eapply (get_expired_is_miss cfg (at_time 61000000) d (str "A") None m).
  - vm_compute; reflexivity.
  - vm_compute; reflexivity.
  - vm_compute; reflexivity.
Defined.

(** ** Prefetch scheduling *)





(** ** The TTL optimizer *)

Lemma clamp_ttl_bounds cfg x :
  ttl_min cfg <= ttl_max cfg ->
  ttl_min cfg <= clamp_ttl cfg x <= ttl_max cfg.
Proof. unfold clamp_ttl; lia. Qed.





(** A busy entry: twelve reads within the first hour at a TTL of 300 s
    give 360 s. *)
Example optimize_ttl_hot_entry :
  let cfg := default_config in
  let d := str "example.com" in
  let m0 := snd (set cfg (at_time 0) d (str "A") (VStr (str "1.2.3.4"))
                     (Some 300) None (new_manager cfg None)) in
  let m := run cfg (repeat (OpGet (at_time 1000000) d (str "A") None) 12) m0 in
  optimize_ttl cfg (at_time 2000000) d (str "A") m = 360.
Proof. vm_compute; reflexivity. Qed.

(** ** Domain invalidation *)

Lemma hex_digit_is_hex (n : Z) : 0 <= n < 16 -> is_hex (hex_digit n) = true.
Proof.
  intros H; unfold hex_digit, is_hex.
  destruct (n <? 10) eqn:E; [apply Z.ltb_lt in E | apply Z.ltb_ge in E];
    apply orb_true_iff; [left | right];
    apply andb_true_iff; split; apply Z.leb_le; lia.
Qed.

Lemma hex_byte_is_hex (b : Z) :
  0 <= b < 256 -> forallb is_hex (hex_byte b) = true.
Proof.
  intros H; unfold hex_byte; simpl.
  rewrite Z.shiftr_div_pow2 by lia.
  change 15 with (Z.ones 4); rewrite Z.land_ones by lia.
  change (2 ^ 4) with 16.
  rewrite !hex_digit_is_hex; [reflexivity | |].
  - apply Z.mod_pos_bound; lia.
  - split; [apply Z.div_pos; lia | apply Z.div_lt_upper_bound; lia].
Qed.

Lemma le_bytes_range (n : nat) (x : Z) :
  Forall (fun b => 0 <= b < 256) (MD5.le_bytes n x).
Proof.
  unfold MD5.le_bytes; apply Forall_forall; intros b Hb.
  apply in_map_iff in Hb; destruct Hb as [i [<- _]].
  change 255 with (Z.ones 8); rewrite Z.land_ones by lia.
  apply Z.mod_pos_bound; reflexivity.
Qed.

Lemma hexdigest_is_hex (msg : list Z) :
  forallb is_hex (MD5.hexdigest msg) = true.
Proof.
  unfold MD5.hexdigest, MD5.digest.
  set (st := MD5.blocks _ _ _).
  assert (R : Forall (fun b => 0 <= b < 256)
                (MD5.le_bytes 4 (MD5.sa st) ++ MD5.le_bytes 4 (MD5.sb st) ++
                 MD5.le_bytes 4 (MD5.sc st) ++ MD5.le_bytes 4 (MD5.sd st))).
  { repeat (apply Forall_app; split); apply le_bytes_range. }
  induction R as [|b l Hb _ IH]; [reflexivity|].
  change (flat_map hex_byte (b :: l)) with (hex_byte b ++ flat_map hex_byte l).
  rewrite forallb_app, IH, andb_true_r.
  apply hex_byte_is_hex; exact Hb.
Qed.

Lemma cache_key_is_hex d t ns k :
  _generate_cache_key d t ns = Ok k -> forallb is_hex k = true.
Proof.
  unfold _generate_cache_key.
  destruct (encode _) as [bytes|e]; simpl; [|discriminate].
  intros [= <-]; apply hexdigest_is_hex.
Qed.

Lemma starts_with_In (p s : pystr) (c : Z) :
  starts_with p s = true -> In c p -> In c s.
Proof.
  revert s; induction p as [|x p IH]; intros [|y s]; simpl;
    try discriminate; try tauto.
  intros H; apply andb_true_iff in H; destruct H as [E H].
  apply Z.eqb_eq in E; subst y.
  intros [<-|Hin]; [left; reflexivity | right; exact (IH _ H Hin)].
Qed.

Lemma contains_In (p s : pystr) (c : Z) :
  contains p s = true -> In c p -> In c s.
Proof.
  induction s as [|y s IH]; simpl; intros H Hin.
  - rewrite orb_false_r in H; exact (starts_with_In p [] c H Hin).
  - apply orb_true_iff in H; destruct H as [H|H].
    + exact (starts_with_In p (y :: s) c H Hin).
    + right; exact (IH H Hin).
Qed.

(** A domain with a character that is not a hexadecimal digit, the dot
    for one, is never found inside a key. *)
Lemma domain_not_in_key (domain_lower k : pystr) (c : Z) :
  In c domain_lower -> is_hex c = false -> forallb is_hex k = true ->
  contains domain_lower k = false.
Proof.
  intros Hin Hc Hk.
  destruct (contains domain_lower k) eqn:E; [|reflexivity].
  pose proof (contains_In _ _ _ E Hin) as Hk'.
  rewrite forallb_forall in Hk; rewrite (Hk _ Hk') in Hc; discriminate.
Qed.

(** So for such a domain the entries that [invalidate_domain] picks in
    memory are those whose value mentions it, whatever their key. *)
Lemma invalidate_domain_looks_at_values (domain : pystr) (c : Z)
    (d : list (pystr * CacheEntry)) :
  In c (lower domain) -> is_hex c = false ->
  Forall (fun kv => forallb is_hex (fst kv) = true) d ->
  filter (fun kv => mentions (lower domain) (fst kv) (value (snd kv))) d
  = filter (fun kv => is_str_or_list (value (snd kv)) &&
                      contains (lower domain) (str_of (value (snd kv)))) d.
Proof.
  intros Hin Hc F; induction F as [|kv d Hk _ IH]; [reflexivity|].
  cbn [filter]; rewrite IH; unfold mentions at 1.
  rewrite (domain_not_in_key _ _ c Hin Hc Hk); reflexivity.
Qed.

(** C1. The cache holds the A and MX records of example.com and the TXT
    record of other.com, stored by [set]; [invalidate_domain] for
    example.com looks for the domain inside the hashed keys and the
    values, finds it in none, returns 0 and leaves all three entries,
    where two were to go. *)
Theorem invalidate_domain_removes_nothing :
  let cfg := default_config in
  let m := run cfg [put "example.com" "A" "93.184.216.34";
                    put "example.com" "MX" "10 mx.mailhost.net";
                    put "other.com" "TXT" "v=spf1 -all"]
               (new_manager cfg None) in
  map fst (memory_cache m)
  = [str "bc6fa0606cd95fb7d9bbfc62bf165834";
     str "c447b89858f005cef27f2d368fe902cf";
     str "f9551f23b2b6528c580fc5d3ad72f275"] /\
  invalidate_domain (str "example.com") m = (Ok 0, m).
Proof. split; vm_compute; reflexivity. Qed.

(** The same test removes an entry of another domain whose value names
    the domain, here an SPF record of other.com. *)
Example invalidate_domain_removes_other_domain :
  let cfg := default_config in
  let m := run cfg [put "example.com" "A" "93.184.216.34";
                    put "other.com" "TXT" "v=spf1 include:example.com -all"]
               (new_manager cfg None) in
  fst (invalidate_domain (str "example.com") m) = Ok 1 /\
  map fst (memory_cache (snd (invalidate_domain (str "example.com") m)))
  = [str "bc6fa0606cd95fb7d9bbfc62bf165834"].
Proof. split; vm_compute; reflexivity. Qed.

(** ** Sorting by access time *)

Lemma insert_by_time_perm x l : Permutation (x :: l) (insert_by_time x l).
Proof.
  induction l as [|y l IH]; simpl; [reflexivity|].
  destruct (access_time (snd x) <=? access_time (snd y)); [reflexivity|].
  rewrite perm_swap; apply perm_skip; exact IH.
Qed.

Lemma sort_by_time_perm l : Permutation l (sort_by_time l).
Proof.
  induction l as [|x l IH]; simpl; [reflexivity|].
  rewrite <- insert_by_time_perm; apply perm_skip; exact IH.
Qed.

Lemma sort_by_time_length l : length (sort_by_time l) = length l.
Proof. symmetry; apply Permutation_length, sort_by_time_perm. Qed.

Lemma insert_by_time_sorted x l :
  StronglySorted time_le l -> StronglySorted time_le (insert_by_time x l).
Proof.
  induction l as [|y l IH]; simpl; intros S.
  - constructor; constructor.
  - inversion S as [|? ? S' F]; subst.
    destruct (access_time (snd x) <=? access_time (snd y)) eqn:E.
    + apply Z.leb_le in E.
      constructor; [exact S|].
      constructor; [exact E|].
      eapply Forall_impl; [|exact F].
      unfold time_le in *; intros; lia.
    + apply Z.leb_gt in E.
      constructor; [exact (IH S')|].
      apply (Permutation_Forall (insert_by_time_perm x l)).
      constructor; [unfold time_le; lia | exact F].
Qed.

Lemma sort_by_time_sorted l : StronglySorted time_le (sort_by_time l).
Proof.
  induction l as [|x l IH]; simpl; [constructor|].
  apply insert_by_time_sorted; exact IH.
Qed.





(** ** Deleting several keys *)

Lemma filter_perm {A : Type} (f : A -> bool) (l l' : list A) :
  Permutation l l' -> Permutation (filter f l) (filter f l').
Proof.
  induction 1 as [|x l l' _ IH|x y l|l l' l'' _ IH1 _ IH2]; simpl.
  - constructor.
  - destruct (f x); [apply perm_skip|]; exact IH.
  - destruct (f x), (f y); try reflexivity. apply perm_swap.
  - etransitivity; eassumption.
Qed.

Lemma filter_filter {A : Type} (f g : A -> bool) (l : list A) :
  filter f (filter g l) = filter (fun x => g x && f x) l.
Proof.
  induction l as [|x l IH]; simpl; [reflexivity|].
  destruct (g x); simpl; [destruct (f x)|]; rewrite IH; reflexivity.
Qed.

Lemma NoDup_app_disjoint {A : Type} (l l' : list A) (a : A) :
  NoDup (l ++ l') -> In a l -> ~ In a l'.
Proof.
  induction l as [|x l IH]; simpl; [tauto|].
  intros N [->|Hin] Hin'.
  - inversion N as [|? ? Hn _]; subst.
    apply Hn, in_or_app; right; exact Hin'.
  - inversion N; subst; exact (IH ltac:(assumption) Hin Hin').
Qed.

Section RemoveKeys.
Context {V : Type}.
Implicit Types (d : list (pystr * V)) (k : pystr) (ks : list pystr).

Lemma remove_keys_nil d : remove_keys [] d = d.
Proof.
  unfold remove_keys; simpl.
  induction d as [|x d IH]; simpl; [|rewrite IH]; reflexivity.
Qed.

Lemma remove_keys_cons k ks d :
  remove_keys ks (dict_del k d) = remove_keys (k :: ks) d.
Proof.
  unfold remove_keys, dict_del; rewrite filter_filter.
  apply filter_ext; intros x; simpl.
  rewrite negb_orb; reflexivity.
Qed.

Lemma existsb_key_In k ks :
  existsb (fun k' => pystr_eqb k' k) ks = true <-> In k ks.
Proof.
  rewrite existsb_exists; split.
  - intros [k' [Hin E]]; apply pystr_eqb_spec in E; subst; exact Hin.
  - intros Hin; exists k; split; [exact Hin | apply pystr_eqb_refl].
Qed.

Lemma remove_keys_all d ks :
  (forall x, In x d -> In (fst x) ks) -> remove_keys ks d = [].
Proof.
  unfold remove_keys; induction d as [|x d IH]; simpl; intros H;
    [reflexivity|].
  rewrite (proj2 (existsb_key_In (fst x) ks)) by (apply H; auto); simpl.
  apply IH; intros; apply H; auto.
Qed.

Lemma remove_keys_none d ks :
  (forall x, In x d -> ~ In (fst x) ks) -> remove_keys ks d = d.
Proof.
  unfold remove_keys; induction d as [|x d IH]; simpl; intros H;
    [reflexivity|].
  destruct (existsb (fun k' => pystr_eqb k' (fst x)) ks) eqn:E.
  - apply existsb_key_In in E; exfalso; exact (H x (or_introl eq_refl) E).
  - simpl; rewrite IH; [reflexivity | intros; apply H; auto].
Qed.

(** Deleting the keys of a prefix of a dictionary leaves the rest. *)
Lemma remove_keys_prefix (a b : list (pystr * V)) :
  dict_wf (a ++ b) -> remove_keys (map fst a) (a ++ b) = b.
Proof.
  unfold dict_wf; rewrite map_app; intros N.
  unfold remove_keys; rewrite filter_app.
  fold (remove_keys (map fst a) a); fold (remove_keys (map fst a) b).
  rewrite remove_keys_all by (intros; apply in_map; assumption).
  rewrite remove_keys_none; [reflexivity|].
  intros x Hx Hin.
  exact (NoDup_app_disjoint _ _ _ N Hin (in_map fst _ _ Hx)).
Qed.

Lemma dict_get_remove_keys k ks d :
  ~ In k ks -> dict_get k (remove_keys ks d) = dict_get k d.
Proof.
  intros H; unfold remove_keys.
  induction d as [|[k' v] d IH]; simpl; [reflexivity|].
  destruct (pystr_eqb k k') eqn:E.
  - apply pystr_eqb_spec in E; subst k'.
    replace (existsb (fun k' => pystr_eqb k' k) ks) with false.
    + simpl; rewrite pystr_eqb_refl; reflexivity.
    + symmetry; apply not_true_is_false; intros T.
      apply existsb_key_In in T; contradiction.
  - destruct (existsb (fun k0 => pystr_eqb k0 k') ks); simpl;
      [|rewrite E]; exact IH.
Qed.
End RemoveKeys.

(** ** Eviction *)

Lemma evict_loop_ok sorted_entries n (m : Manager) :
  (n <= length sorted_entries)%nat ->
  evict_loop sorted_entries n m
  = (Ok tt, evicted_manager (map fst (firstn n sorted_entries)) m).
Proof.
  revert sorted_entries m; induction n as [|n IH];
    intros [|[k e] rest] m H; simpl in *; try lia.
  - destruct m; unfold evicted_manager; simpl.
    rewrite remove_keys_nil, Z.add_0_r; reflexivity.
  - destruct m; unfold evicted_manager; simpl.
    rewrite remove_keys_nil, Z.add_0_r; reflexivity.
  - rewrite IH by lia.
    unfold evicted_manager, bump_evictions, set_memory; simpl.
    rewrite remove_keys_cons.
    do 2 f_equal; lia.
Qed.

Lemma set_remote_memory k t e (m : Manager) :
  memory_cache (set_remote k t e m) = memory_cache m /\
  evictions (set_remote k t e m) = evictions m.
Proof.
  unfold set_remote.
  destruct (remote_tier m) as [r|]; [|auto].
  destruct (redis_setex r k t (BDict e)); auto.
Qed.

(** [set] with room left: the entry is stored and nothing is evicted. *)
Lemma set_body_room cfg now k v t (m : Manager) :
  let items := dict_set k (new_entry k v (now 0%nat) t) (memory_cache m) in
  Z.of_nat (length items) <= max_entries cfg ->
  set_body cfg now k v t m
  = (Ok true,
     bump_sets (set_remote k t (new_entry k v (now 0%nat) t)
                           (set_memory items m))).
Proof.
  intros items H; unfold set_body; fold items; simpl.
  replace (Z.of_nat (length items) >? max_entries cfg) with false;
    [reflexivity|].
  symmetry; rewrite Z.gtb_ltb; apply Z.ltb_ge; exact H.
Qed.

(** [set] on a full store: the first entries in access order go, as many
    as exceed the target size. *)
Lemma set_body_full cfg now k v t (m : Manager) :
  let items := dict_set k (new_entry k v (now 0%nat) t) (memory_cache m) in
  max_entries cfg < Z.of_nat (length items) ->
  0 <= target_size cfg ->
  let n := Z.to_nat (Z.of_nat (length items) - target_size cfg) in
  set_body cfg now k v t m
  = (Ok true,
     bump_sets (set_remote k t (new_entry k v (now 0%nat) t)
       (evicted_manager (map fst (firstn n (sort_by_time items)))
                        (set_memory items m)))).
Proof.
  intros items H T n; unfold set_body; fold items; simpl.
  replace (Z.of_nat (length items) >? max_entries cfg) with true
    by (symmetry; rewrite Z.gtb_ltb; apply Z.ltb_lt; exact H).
  unfold _evict_lru_entries; simpl.
  rewrite sort_by_time_length; fold n.
  rewrite evict_loop_ok by (rewrite sort_by_time_length; subst n; lia).
  reflexivity.
Qed.

Lemma target_size_floor cfg :
  0 <= max_entries cfg ->
  target_size cfg = max_entries cfg * 9 / 10 /\
  0 <= target_size cfg <= max_entries cfg.
Proof.
  intros H; unfold target_size.
  rewrite Z.quot_div_nonneg by lia.
  split; [reflexivity|].
  split; [apply Z.div_pos; lia | apply Z.div_le_upper_bound; lia].
Qed.

Lemma sorted_app_le {A : Type} (R : A -> A -> Prop) (a b : list A) :
  StronglySorted R (a ++ b) ->
  forall r s, In r a -> In s b -> R r s.
Proof.
  induction a as [|x a IH]; simpl; [tauto|].
  intros S r s [->|Hr] Hs; inversion S as [|? ? S' F]; subst.
  - rewrite Forall_forall in F; apply F, in_or_app; right; exact Hs.
  - exact (IH S' r s Hr Hs).
Qed.



(** Eleven keys into a store of ten: nine are left, the two oldest are
    gone and counted. *)
Example eviction_of_eleven :
  let cfg := with_max_entries 10 in
  let name i := String (ascii_of_nat (97 + i)) ".example" in
  let put_at i := OpSet (at_time (Z.of_nat i)) (str (name i)) (str "A")
                        (VInt (Z.of_nat i)) None None in
  let m := run cfg (map put_at (seq 0 11)) (new_manager cfg None) in
  map (fun kv => value (snd kv)) (memory_cache m)
  = map VInt [2; 3; 4; 5; 6; 7; 8; 9; 10] /\
  evictions m = 2 /\ sets m = 11.
Proof. vm_compute; repeat split; reflexivity. Qed.

(** ** Round trip *)

Lemma In_firstn {A : Type} (n : nat) (l : list A) (x : A) :
  In x (firstn n l) -> In x l.
Proof.
  intros H; rewrite <- (firstn_skipn n l); apply in_or_app; left; exact H.
Qed.



Lemma target_size_positive cfg :
  1 <= target_size cfg -> 0 <= max_entries cfg.
Proof.
  unfold target_size; intros H.
  destruct (Z_lt_le_dec (max_entries cfg) 0) as [N|N]; [|exact N].
  assert (Q : - (max_entries cfg * 9 ÷ 10) = (- (max_entries cfg * 9)) ÷ 10)
    by (symmetry; apply Z.quot_opp_l; discriminate).
  assert (0 <= (- (max_entries cfg * 9)) ÷ 10) by (apply Z.quot_pos; lia).
  lia.
Qed.





(** ** The invariants of the entries *)

Ltac fields :=
  unfold bump_hits, bump_misses, bump_sets, bump_deletes, bump_evictions,
    create_task, set_memory, set_redis, run_tasks in *;
  simpl in *.

Lemma store_ok_del cfg k d : store_ok cfg d -> store_ok cfg (dict_del k d).
Proof.
  unfold store_ok, dict_del; rewrite !Forall_forall.
  intros H x Hx; apply filter_In in Hx; apply H; tauto.
Qed.

Lemma store_ok_set cfg k e d :
  entry_ok cfg e -> store_ok cfg d -> store_ok cfg (dict_set k e d).
Proof.
  unfold store_ok; rewrite !Forall_forall.
  intros He H x Hx; destruct (dict_set_In _ _ _ _ Hx) as [->|Hin];
    [exact He | exact (H x Hin)].
Qed.

Lemma store_ok_get cfg k e d :
  store_ok cfg d -> dict_get k d = Some e -> entry_ok cfg e.
Proof.
  unfold store_ok; rewrite Forall_forall.
  intros H G; exact (H (k, e) (dict_get_In _ _ _ G)).
Qed.

Lemma entry_ok_touch cfg e now : entry_ok cfg e -> entry_ok cfg (touch e now).
Proof. unfold entry_ok; simpl; tauto. Qed.

Lemma entry_ok_new cfg k v now t :
  ttl_min cfg <= ttl_max cfg ->
  entry_ok cfg (new_entry k v now (clamp_ttl cfg t)).
Proof.
  intros H; unfold entry_ok, new_entry, timedelta_seconds; simpl.
  split; [apply clamp_ttl_bounds; exact H | reflexivity].
Qed.

Lemma remote_tier_client (m : Manager) r :
  remote_tier m = Some r -> redis_client m = Some r.
Proof. unfold remote_tier; destruct (cache_backend m); congruence. Qed.

Lemma redis_delete_ok cfg r ks n r' :
  remote_ok cfg (Some r) -> redis_delete r ks = Ok (n, r') ->
  remote_ok cfg (Some r').
Proof.
  unfold redis_delete, remote_ok; destruct (alive r); [|discriminate].
  intros H [= _ <-]; simpl.
  rewrite Forall_forall in *; intros x Hx.
  apply filter_In in Hx; apply H; tauto.
Qed.

Lemma redis_setex_ok cfg r k t e r' :
  remote_ok cfg (Some r) -> redis_setex r k t (BDict e) = Ok r' ->
  remote_ok cfg (Some r').
Proof.
  unfold redis_setex, remote_ok.
  destruct (alive r); simpl; [|discriminate].
  destruct (t <=? 0); [discriminate|].
  intros H [= <-]; simpl.
  rewrite Forall_forall in *; intros x Hx.
  destruct (dict_set_In _ _ _ _ Hx) as [->|Hin]; [exact I | exact (H x Hin)].
Qed.

Lemma redis_get_ok cfg r k b :
  remote_ok cfg (Some r) -> redis_get r k = Ok (Some b) -> blob_ok cfg b.
Proof.
  unfold redis_get, remote_ok; destruct (alive r); [|discriminate].
  intros H [= G]; rewrite Forall_forall in H.
  exact (H (k, b) (dict_get_In _ _ _ G)).
Qed.

Lemma get_remote_ok cfg now k r (m : Manager) :
  remote_tier m = Some r -> manager_ok cfg m ->
  manager_ok cfg (snd (get_remote now k r m)).
Proof.
  intros T (S & R & W).
  rewrite (remote_tier_client m r T) in R.
  unfold get_remote.
  destruct (redis_get r k) as [[b|]|] eqn:G; simpl;
    try (repeat split; rewrite ?(remote_tier_client m r T); assumption).
  pose proof (redis_get_ok cfg r k b R G) as B.
  destruct b as [e|e|]; simpl;
    try (repeat split; rewrite ?(remote_tier_client m r T); assumption).
  destruct (is_expired e (now 0%nat)).
  - destruct (redis_delete r [k]) as [[n r']|] eqn:D; simpl.
    + repeat split; fields; auto; exact (redis_delete_ok cfg r _ _ _ R D).
    + repeat split; rewrite ?(remote_tier_client m r T); assumption.
  - destruct (cache_backend m); repeat split; fields;
      rewrite ?(remote_tier_client m r T);
      auto using store_ok_set, entry_ok_touch, dict_set_wf.
Qed.

Lemma get_ok cfg now d t ns (m : Manager) :
  manager_ok cfg m -> manager_ok cfg (snd (get cfg now d t ns m)).
Proof.
  intros H; unfold get.
  destruct (_generate_cache_key d t ns) as [k|]; [|exact H].
  assert (B : manager_ok cfg (snd (get_body cfg now d t ns k m))).
  { unfold get_body.
    destruct (dict_get k (memory_cache m)) as [e|] eqn:G.
    - destruct H as (S & R & W).
      destruct (is_expired e (now 0%nat)).
      + repeat split; fields; auto using store_ok_del, dict_del_wf.
      + destruct (is_stale _ _ _); repeat split; fields;
          eauto using store_ok_set, entry_ok_touch, dict_set_wf, store_ok_get.
    - destruct (remote_tier m) as [r|] eqn:T.
      + pose proof (get_remote_ok cfg now k r m T H) as H'.
        destruct (get_remote now k r m) as [[v|] m1]; simpl in *;
          [exact H' | destruct H' as (? & ? & ?); repeat split; fields; auto].
      + destruct H as (? & ? & ?); repeat split; fields; auto. }
  unfold try_except.
  destruct (get_body cfg now d t ns k m) as [[a|e] m1]; simpl in *;
    [exact B | destruct B as (? & ? & ?); repeat split; fields; auto].
Qed.

Lemma manager_ok_del cfg k (m : Manager) :
  manager_ok cfg m ->
  manager_ok cfg (set_memory (dict_del k (memory_cache m)) m).
Proof.
  intros (S & R & W); repeat split; fields;
    auto using store_ok_del, dict_del_wf.
Qed.

Lemma evict_loop_keeps_ok cfg sorted_entries n (m : Manager) :
  manager_ok cfg m -> manager_ok cfg (snd (evict_loop sorted_entries n m)).
Proof.
  revert sorted_entries m; induction n as [|n IH];
    intros [|[k e] rest] m H; simpl; try exact H.
  apply IH.
  destruct (manager_ok_del cfg k m H) as (? & ? & ?).
  repeat split; fields; auto.
Qed.

Lemma set_remote_ok cfg k t e (m : Manager) :
  manager_ok cfg m -> manager_ok cfg (set_remote k t e m).
Proof.
  intros (S & R & W); unfold set_remote.
  destruct (remote_tier m) as [r|] eqn:T; [|repeat split; assumption].
  rewrite (remote_tier_client m r T) in R.
  destruct (redis_setex r k t (BDict e)) as [r'|] eqn:X.
  - repeat split; fields; auto; exact (redis_setex_ok cfg r k t e r' R X).
  - repeat split; rewrite ?(remote_tier_client m r T); assumption.
Qed.

Lemma set_ok cfg now d t v ttl ns (m : Manager) :
  ttl_min cfg <= ttl_max cfg ->
  manager_ok cfg m -> manager_ok cfg (snd (set cfg now d t v ttl ns m)).
Proof.
  intros L H; unfold set.
  destruct (_generate_cache_key d t ns) as [k|]; [|exact H].
  fold (effective_ttl cfg ttl).
  assert (B : manager_ok cfg
                (snd (set_body cfg now k v (effective_ttl cfg ttl) m))).
  { unfold set_body.
    set (entry := new_entry k v (now 0%nat) (effective_ttl cfg ttl)).
    set (m1 := set_memory (dict_set k entry (memory_cache m)) m).
    assert (H1 : manager_ok cfg m1).
    { destruct H as (S & R & W); repeat split; subst m1; fields;
        auto using dict_set_wf.
      apply store_ok_set; [|exact S].
      apply entry_ok_new; exact L. }
    destruct (Z.of_nat (length (memory_cache m1)) >? max_entries cfg).
    - unfold _evict_lru_entries.
      pose proof (evict_loop_keeps_ok cfg (sort_by_time (memory_cache m1))
                    (Z.to_nat (Z.of_nat (length (sort_by_time (memory_cache m1)))
                               - target_size cfg)) m1 H1) as H2.
      destruct (evict_loop _ _ m1) as [[[]|e] m2]; simpl in *; [|exact H2].
      destruct (set_remote_ok cfg k (effective_ttl cfg ttl) entry m2 H2)
        as (? & ? & ?).
      repeat split; fields; auto.
    - simpl.
      destruct (set_remote_ok cfg k (effective_ttl cfg ttl) entry m1 H1)
        as (? & ? & ?).
      repeat split; fields; auto. }
  unfold try_except.
  destruct (set_body cfg now k v (effective_ttl cfg ttl) m) as [[a|e] m1];
    exact B.
Qed.

Lemma delete_ok cfg d t ns (m : Manager) :
  manager_ok cfg m -> manager_ok cfg (snd (delete d t ns m)).
Proof.
  intros H; unfold delete.
  destruct (_generate_cache_key d t ns) as [k|]; [|exact H].
  unfold try_except, delete_body.
  set (p := if dict_mem k (memory_cache m)
            then (true, set_memory (dict_del k (memory_cache m)) m)
            else (false, m)).
  assert (H1 : manager_ok cfg (snd p))
    by (subst p; destruct (dict_mem k (memory_cache m)); simpl;
        auto using manager_ok_del).
  destruct p as [b m1]; simpl in H1.
  assert (H2 : forall q : bool * Manager,
             q = match remote_tier m1 with
                 | Some r =>
                     match redis_delete r [k] with
                     | Ok (redis_deleted, r') =>
                         (b || negb (redis_deleted =? 0), set_redis r' m1)
                     | Raise _ => (b, m1)
                     end
                 | None => (b, m1)
                 end ->
             manager_ok cfg (snd q)).
  { intros q ->.
    destruct (remote_tier m1) as [r|] eqn:T; [|exact H1].
    destruct (redis_delete r [k]) as [[n r']|] eqn:D; [|exact H1].
    destruct H1 as (S & R & W).
    rewrite (remote_tier_client m1 r T) in R.
    repeat split; fields; auto; exact (redis_delete_ok cfg r _ _ _ R D). }
  specialize (H2 _ eq_refl).
  destruct (match remote_tier m1 with Some _ => _ | None => _ end)
    as [b' m2]; simpl in *.
  destruct b'; [|exact H2].
  destruct H2 as (? & ? & ?); repeat split; fields; auto.
Qed.

Lemma delete_keys_ok cfg ks c (m : Manager) :
  manager_ok cfg m -> manager_ok cfg (snd (delete_keys ks c m)).
Proof.
  revert c m; induction ks as [|k ks IH]; intros c m H; simpl; [exact H|].
  apply IH, manager_ok_del; exact H.
Qed.

Lemma invalidate_remote_ok cfg dl c (m : Manager) :
  manager_ok cfg m -> manager_ok cfg (snd (invalidate_remote dl c m)).
Proof.
  intros H; unfold invalidate_remote.
  destruct (remote_tier m) as [r|] eqn:T; [|exact H].
  destruct (redis_keys r) as [ks|]; [|exact H].
  destruct (filter (remote_mentions dl r) ks) as [|k0 ks0]; [exact H|].
  destruct (redis_delete r (k0 :: ks0)) as [[n r']|] eqn:D; [|exact H].
  destruct H as (S & R & W).
  rewrite (remote_tier_client m r T) in R.
  repeat split; fields; auto; exact (redis_delete_ok cfg r _ _ _ R D).
Qed.

Lemma invalidate_domain_ok cfg d (m : Manager) :
  manager_ok cfg m -> manager_ok cfg (snd (invalidate_domain d m)).
Proof.
  intros H; unfold invalidate_domain.
  pose proof (delete_keys_ok cfg
    (map fst (filter (fun kv => mentions (lower d) (fst kv) (value (snd kv)))
                     (memory_cache m))) 0 m H) as H1.
  destruct (delete_keys _ 0 m) as [c m1]; simpl in H1.
  pose proof (invalidate_remote_ok cfg (lower d) c m1 H1) as H2.
  destruct (invalidate_remote (lower d) c m1) as [c' m2]; exact H2.
Qed.

Lemma cleanup_ok cfg now (m : Manager) :
  manager_ok cfg m -> manager_ok cfg (cleanup now m).
Proof.
  unfold cleanup; generalize (expired_keys now 0 (memory_cache m)).
  intros ks; revert m; induction ks as [|k ks IH]; intros m H; simpl;
    [exact H|].
  apply IH, manager_ok_del; exact H.
Qed.

Lemma clear_cache_ok cfg (m : Manager) :
  manager_ok cfg m -> manager_ok cfg (snd (clear_cache m)).
Proof.
  intros (S & R & W); unfold clear_cache.
  assert (H1 : manager_ok cfg (set_memory [] m))
    by (repeat split; fields; auto; constructor).
  destruct (remote_tier (set_memory [] m)) as [r|]; [|exact H1].
  unfold redis_flushdb; destruct (alive r); [|exact H1].
  repeat split; fields; constructor.
Qed.

Lemma step_ok cfg (m : Manager) (o : Op) :
  ttl_min cfg <= ttl_max cfg ->
  manager_ok cfg m -> manager_ok cfg (step cfg m o).
Proof.
  intros L H; destruct o; simpl.
  - apply get_ok; exact H.
  - apply set_ok; assumption.
  - apply delete_ok; exact H.
  - apply invalidate_domain_ok; exact H.
  - apply cleanup_ok; exact H.
  - apply clear_cache_ok; exact H.
  - destruct H as (? & ? & ?); repeat split; fields; auto.
Qed.

Lemma run_ok cfg ops (m : Manager) :
  ttl_min cfg <= ttl_max cfg ->
  manager_ok cfg m -> manager_ok cfg (run cfg ops m).
Proof.
  intros L; unfold run; revert m.
  induction ops as [|o ops IH]; intros m H; simpl; [exact H|].
  apply IH, step_ok; assumption.
Qed.

Lemma new_manager_ok cfg server :
  remote_ok cfg server -> manager_ok cfg (new_manager cfg server).
Proof.
  intros R; unfold new_manager.
  destruct (backend cfg), server as [r|]; try destruct (alive r);
    repeat split; simpl; auto; constructor.
Qed.



(** The stored entry of that run: the TTL of 999999 s became 86400 s. *)
Example clamped_entry :
  let cfg := default_config in
  map (fun kv => (ttl (snd kv), created_at (snd kv), expires_at (snd kv)))
      (memory_cache
         (run cfg [OpSet (at_time 0) (str "example.com") (str "A")
                         (VStr (str "192.0.2.1")) (Some 999999) None]
              (new_manager cfg None)))
  = [(86400, 0, 86400000000)].
Proof. vm_compute; reflexivity. Qed.

(** Every state a run reaches has one entry per key, the condition the
    eviction and round trip theorems ask of the memory cache. *)
Lemma run_dict_wf cfg server ops :
  ttl_min cfg <= ttl_max cfg -> remote_ok cfg server ->
  dict_wf (memory_cache (run cfg ops (new_manager cfg server))).
Proof.
  intros L R.
  exact (proj2 (proj2 (run_ok cfg ops _ L (new_manager_ok cfg server R)))).
Qed.

(** * Further properties of the cache manager *)

(** ** Keys *)

Lemma hexdigest_length (msg : list Z) : length (MD5.hexdigest msg) = 32%nat.
Proof.
  unfold MD5.hexdigest, MD5.digest.
  set (st := MD5.blocks _ _ _).
  assert (F : forall l, length (flat_map hex_byte l) = (2 * length l)%nat).
  { induction l as [|b l IH]; [reflexivity|].
    change (flat_map hex_byte (b :: l)) with (hex_byte b ++ flat_map hex_byte l).
    rewrite length_app, IH; simpl; lia. }
  rewrite F, !length_app.
  unfold MD5.le_bytes; rewrite !length_map, !length_seq; reflexivity.
Qed.

Lemma is_surrogate_lower (c : Z) : is_surrogate (lower_cp c) = is_surrogate c.
Proof.
  unfold is_surrogate, lower_cp.
  destruct ((65 <=? c) && (c <=? 90)) eqn:E; [|reflexivity].
  apply andb_true_iff in E; destruct E as [H1 H2].
  apply Z.leb_le in H1, H2.
  replace (c + 32 <=? 57343) with true by (symmetry; apply Z.leb_le; lia).
  replace (55296 <=? c + 32) with false by (symmetry; apply Z.leb_gt; lia).
  replace (55296 <=? c) with false by (symmetry; apply Z.leb_gt; lia).
  reflexivity.
Qed.

Lemma is_surrogate_upper (c : Z) : is_surrogate (upper_cp c) = is_surrogate c.
Proof.
  unfold is_surrogate, upper_cp.
  destruct ((97 <=? c) && (c <=? 122)) eqn:E; [|reflexivity].
  apply andb_true_iff in E; destruct E as [H1 H2].
  apply Z.leb_le in H1, H2.
  replace (55296 <=? c - 32) with false by (symmetry; apply Z.leb_gt; lia).
  replace (55296 <=? c) with false by (symmetry; apply Z.leb_gt; lia).
  reflexivity.
Qed.

Lemma existsb_map {A B : Type} (f : A -> B) (p : B -> bool) (l : list A) :
  existsb p (map f l) = existsb (fun x => p (f x)) l.
Proof. induction l as [|x l IH]; simpl; [|rewrite IH]; reflexivity. Qed.

Lemma surrogate_in_lower (s : pystr) :
  existsb is_surrogate (lower s) = existsb is_surrogate s.
Proof.
  unfold lower; rewrite existsb_map.
  induction s as [|c s IH]; simpl; [|rewrite IH, is_surrogate_lower];
    reflexivity.
Qed.

Lemma surrogate_in_upper (s : pystr) :
  existsb is_surrogate (upper s) = existsb is_surrogate s.
Proof.
  unfold upper; rewrite existsb_map.
  induction s as [|c s IH]; simpl; [|rewrite IH, is_surrogate_upper];
    reflexivity.
Qed.

Lemma encode_cp_surrogate (c : Z) :
  (is_surrogate c = true -> encode_cp c = Raise UnicodeEncodeError) /\
  (is_surrogate c = false -> exists bs, encode_cp c = Ok bs).
Proof.
  unfold encode_cp; fold (is_surrogate c); split; intros S.
  - unfold is_surrogate in S; apply andb_true_iff in S; destruct S as [H1 H2].
    apply Z.leb_le in H1, H2.
    replace (c <? 128) with false by (symmetry; apply Z.ltb_ge; lia).
    replace (c <? 2048) with false by (symmetry; apply Z.ltb_ge; lia).
    replace (c <? 65536) with true by (symmetry; apply Z.ltb_lt; lia).
    replace (is_surrogate c) with true; [reflexivity|].
    symmetry; unfold is_surrogate; apply andb_true_iff.
    split; apply Z.leb_le; assumption.
  - rewrite S.
    destruct (c <? 128); [eauto|].
    destruct (c <? 2048); [eauto|].
    destruct (c <? 65536); eauto.
Qed.

(** [str.encode()] fails exactly on the strings that hold a surrogate. *)
Lemma encode_surrogate (s : pystr) :
  (existsb is_surrogate s = true -> encode s = Raise UnicodeEncodeError) /\
  (existsb is_surrogate s = false -> exists bs, encode s = Ok bs).
Proof.
  induction s as [|c s [IH1 IH2]]; simpl.
  - split; [discriminate | eauto].
  - destruct (encode_cp_surrogate c) as [C1 C2].
    destruct (is_surrogate c); simpl.
    + split; [intros _; rewrite C1; reflexivity | discriminate].
    + destruct (C2 eq_refl) as [bs ->]; simpl.
      split.
      * intros H; rewrite (IH1 H); reflexivity.
      * intros H; destruct (IH2 H) as [rest ->]; simpl; eauto.
Qed.

Lemma surrogate_in_key_string (d t : pystr) (ns : option pystr) :
  existsb is_surrogate
    (join (str ":")
       ([lower d; upper t] ++
        match ns with
        | Some (c :: n) => [c :: n]
        | _ => []
        end))
  = existsb is_surrogate (concat (key_strings d t ns)).
Proof.
  unfold key_strings.
  destruct ns as [[|c n]|];
    repeat first [ rewrite existsb_app | rewrite surrogate_in_lower
                 | rewrite surrogate_in_upper | rewrite app_nil_r
                 | rewrite orb_false_r | progress simpl ];
    reflexivity.
Qed.

(** X1. [_generate_cache_key] raises [UnicodeEncodeError] exactly when
    the domain, the record type or the nameserver holds a surrogate code
    point; in every other case it returns a key of 32 hexadecimal
    digits. *)
Theorem cache_key_raises_iff_surrogate (d t : pystr) (ns : option pystr) :
  (existsb is_surrogate (concat (key_strings d t ns)) = true ->
   _generate_cache_key d t ns = Raise UnicodeEncodeError) /\
  (existsb is_surrogate (concat (key_strings d t ns)) = false ->
   exists k, _generate_cache_key d t ns = Ok k /\ is_digest k).
Proof.
  rewrite <- surrogate_in_key_string.
  unfold _generate_cache_key.
  destruct (encode_surrogate
              (join (str ":")
                 ([lower d; upper t] ++
                  match ns with
                  | Some (c :: n) => [c :: n]
                  | _ => []
                  end))) as [E1 E2].
  split; intros H.
  - rewrite (E1 H); reflexivity.
  - destruct (E2 H) as [bs ->]; simpl.
    eexists; split; [reflexivity|].
    split; [apply hexdigest_length | apply hexdigest_is_hex].
Qed.

Lemma cache_key_raises_iff_surrogate_witness :
  _generate_cache_key (56575 :: str ".com") (str "A") None
  = Raise UnicodeEncodeError /\
  exists k, _generate_cache_key (str "example.com") (str "MX")
                                (Some (str "8.8.8.8")) = Ok k /\ is_digest k.
Proof.
  split.
  - apply (proj1 (cache_key_raises_iff_surrogate
                    (56575 :: str ".com") (str "A") None)).
    vm_compute; reflexivity.
  - apply (proj2 (cache_key_raises_iff_surrogate
                    (str "example.com") (str "MX") (Some (str "8.8.8.8")))).
    vm_compute; reflexivity.
Defined.

(** ** Counting hits and misses *)



(** ** Deleting *)

Lemma dict_mem_get {V : Type} (k : pystr) (d : list (pystr * V)) :
  dict_mem k d = false <-> dict_get k d = None.
Proof.
  unfold dict_mem; induction d as [|[k' v] d IH]; simpl; [tauto|].
  destruct (pystr_eqb k k'); simpl; [split; discriminate | exact IH].
Qed.

Lemma dict_del_absent {V : Type} (k : pystr) (d : list (pystr * V)) :
  dict_get k d = None -> dict_del k d = d.
Proof.
  unfold dict_del; induction d as [|[k' v] d IH]; simpl; [reflexivity|].
  destruct (pystr_eqb k k'); simpl; [discriminate|].
  intros H; rewrite (IH H); reflexivity.
Qed.

(** [delete] when no remote tier is in use. *)
Lemma delete_local d t ns (m : Manager) k :
  _generate_cache_key d t ns = Ok k ->
  remote_tier m = None ->
  delete d t ns m
  = if dict_mem k (memory_cache m)
    then (Ok true, bump_deletes (set_memory (dict_del k (memory_cache m)) m))
    else (Ok false, m).
Proof.
  intros K T; unfold delete, delete_body; rewrite K.
  destruct (dict_mem k (memory_cache m)).
  - assert (T' : remote_tier (set_memory (dict_del k (memory_cache m)) m) = None)
      by exact T.
    rewrite T'; reflexivity.
  - rewrite T; reflexivity.
Qed.

(** X3. With no remote tier in use, [delete] answers whether the key
    was in memory and counts a delete only then; afterwards the key is
    absent, a [get] of it misses, and a second [delete] answers [False]
    and changes nothing. *)
Theorem delete_is_idempotent cfg now d t ns (m : Manager) k :
  _generate_cache_key d t ns = Ok k ->
  remote_tier m = None ->
  let m1 := snd (delete d t ns m) in
  fst (delete d t ns m) = Ok (dict_mem k (memory_cache m)) /\
  deletes m1 = deletes m + (if dict_mem k (memory_cache m) then 1 else 0) /\
  memory_cache m1 = dict_del k (memory_cache m) /\
  dict_get k (memory_cache m1) = None /\
  delete d t ns m1 = (Ok false, m1) /\
  fst (get cfg now d t ns m1) = Ok None.
Proof.
  intros K T m1.
  assert (G : dict_get k (memory_cache m1) = None /\ remote_tier m1 = None /\
              memory_cache m1 = dict_del k (memory_cache m)).
  { subst m1; rewrite (delete_local d t ns m k K T).
    destruct (dict_mem k (memory_cache m)) eqn:E; simpl.
    - split; [apply dict_get_del_same | split; [exact T | reflexivity]].
    - apply dict_mem_get in E.
      split; [exact E | split; [exact T | symmetry; apply dict_del_absent, E]]. }
  destruct G as (G & T1 & M1).
  split; [|split; [|split; [exact M1 | split; [exact G | split]]]].
  - rewrite (delete_local d t ns m k K T).
    destruct (dict_mem k (memory_cache m)); reflexivity.
  - subst m1; rewrite (delete_local d t ns m k K T).
    destruct (dict_mem k (memory_cache m)); simpl; lia.
  - rewrite (delete_local d t ns m1 k K T1).
    rewrite (proj2 (dict_mem_get k (memory_cache m1)) G); reflexivity.
  - unfold get, get_body; rewrite K, G, T1; reflexivity.
Qed.

Lemma delete_is_idempotent_witness :
  let cfg := default_config in
  let d := str "example.com" in
  let m := run cfg [put "example.com" "A" "192.0.2.1"] (new_manager cfg None) in
  let m1 := snd (delete d (str "A") None m) in
  delete d (str "A") None m1 = (Ok false, m1).
Proof.
  intros cfg d m m1.
  apply (delete_is_idempotent cfg (at_time 0) d (str "A") None m
           (str "bc6fa0606cd95fb7d9bbfc62bf165834")).
  - vm_compute; reflexivity.
  - reflexivity.
Defined.

(** ** The remote tier *)

Lemma evict_loop_keeps_remote sorted_entries n (m : Manager) :
  cache_backend (snd (evict_loop sorted_entries n m)) = cache_backend m /\
  redis_client (snd (evict_loop sorted_entries n m)) = redis_client m.
Proof.
  revert sorted_entries m; induction n as [|n IH];
    intros [|[k e] rest] m; simpl; auto.
  destruct (IH rest
              (bump_evictions (set_memory (dict_del k (memory_cache m)) m)))
    as [-> ->]; auto.
Qed.

(** What a successful [set] leaves on a live server: the pickled
    dictionary of its entry, under the key. *)
Lemma set_writes_dict cfg now d t v ttl ns (m : Manager) k r :
  _generate_cache_key d t ns = Ok k ->
  remote_tier m = Some r -> alive r = true ->
  0 < effective_ttl cfg ttl ->
  fst (set cfg now d t v ttl ns m) = Ok true ->
  redis_client (snd (set cfg now d t v ttl ns m))
  = Some (mkRedis true
            (dict_set k
               (BDict (new_entry k v (now 0%nat) (effective_ttl cfg ttl)))
               (db r))).
Proof.
  intros K T A P; unfold set; rewrite K; fold (effective_ttl cfg ttl).
  unfold set_body.
  set (entry := new_entry k v (now 0%nat) (effective_ttl cfg ttl)).
  set (m1 := set_memory (dict_set k entry (memory_cache m)) m).
  assert (W : forall m2 : Manager,
             cache_backend m2 = cache_backend m ->
             redis_client m2 = redis_client m ->
             redis_client (bump_sets (set_remote k (effective_ttl cfg ttl)
                                                 entry m2))
             = Some (mkRedis true (dict_set k (BDict entry) (db r)))).
  { intros m2 B C; unfold set_remote.
    assert (T2 : remote_tier m2 = Some r)
      by (unfold remote_tier in *; rewrite B, C; exact T).
    rewrite T2; unfold redis_setex; rewrite A; simpl.
    replace (effective_ttl cfg ttl <=? 0) with false
      by (symmetry; apply Z.leb_gt; exact P).
    reflexivity. }
  destruct (Z.of_nat (length (memory_cache m1)) >? max_entries cfg).
  - unfold _evict_lru_entries.
    destruct (evict_loop_keeps_remote (sort_by_time (memory_cache m1))
                (Z.to_nat (Z.of_nat (length (sort_by_time (memory_cache m1)))
                           - target_size cfg)) m1) as [B C].
    destruct (evict_loop _ _ m1) as [[[]|e] m2]; simpl in *;
      [|discriminate].
    intros _; apply W; assumption.
  - simpl; intros _; apply W; reflexivity.
Qed.

(** A [get] that finds nothing in memory and, on the server, nothing but
    what [set] writes, misses. *)
Lemma get_misses_pickled_dict cfg now d t ns (m : Manager) k :
  _generate_cache_key d t ns = Ok k ->
  dict_get k (memory_cache m) = None ->
  (forall r e, redis_client m = Some r ->
               dict_get k (db r) <> Some (BNative e)) ->
  fst (get cfg now d t ns m) = Ok None /\
  memory_cache (snd (get cfg now d t ns m)) = memory_cache m.
Proof.
  intros K G N; unfold get, get_body; rewrite K, G.
  destruct (remote_tier m) as [r|] eqn:T; [|split; reflexivity].
  pose proof (N r) as Nr; specialize (fun e => Nr e (remote_tier_client m r T)).
  unfold get_remote, redis_get.
  destruct (alive r); [|split; reflexivity].
  destruct (dict_get k (db r)) as [[e|e|]|]; simpl; try (split; reflexivity).
  exfalso; exact (Nr e eq_refl).
Qed.

(** X4. An entry cannot come back from the remote tier. After a
    successful [set] through a live server, a manager that shares the
    server and has not the key in memory, a second process for one,
    misses on [get]: the timestamps travel as ISO strings, and the
    expiry test on the unpickled entry raises inside the [try]. *)
Theorem remote_entry_is_never_served
    cfg now d t v ttl ns (m : Manager) k r cfg' now' (m' : Manager) :
  _generate_cache_key d t ns = Ok k ->
  remote_tier m = Some r -> alive r = true ->
  0 < effective_ttl cfg ttl ->
  fst (set cfg now d t v ttl ns m) = Ok true ->
  redis_client m' = redis_client (snd (set cfg now d t v ttl ns m)) ->
  dict_get k (memory_cache m') = None ->
  fst (get cfg' now' d t ns m') = Ok None /\
  memory_cache (snd (get cfg' now' d t ns m')) = memory_cache m'.
Proof.
  intros K T A P S C G.
  rewrite (set_writes_dict cfg now d t v ttl ns m k r K T A P S) in C.
  apply (get_misses_pickled_dict cfg' now' d t ns m' k K G).
  intros r' e C'; rewrite C in C'; injection C' as <-; simpl.
  rewrite dict_get_set_same; discriminate.
Qed.

Lemma remote_entry_is_never_served_witness :
  let cfg := mkConfig Hybrid 300 60 86400 10000 300 60 true (12 # 10) 10 in
  let d := str "example.com" in
  let first := new_manager cfg (Some (mkRedis true [])) in
  let s := set cfg (at_time 0) d (str "A") (VStr (str "192.0.2.1")) None None
               first in
  let second := new_manager cfg (redis_client (snd s)) in
  fst (get cfg (at_time 1000000) d (str "A") None second) = Ok None.
Proof.
  intros cfg d first s second.
  apply (remote_entry_is_never_served cfg (at_time 0) d (str "A")
           (VStr (str "192.0.2.1")) None None first
           (str "bc6fa0606cd95fb7d9bbfc62bf165834") (mkRedis true [])
           cfg (at_time 1000000) second).
  - vm_compute; reflexivity.
  - reflexivity.
  - reflexivity.
  - vm_compute; reflexivity.
  - vm_compute; reflexivity.
  - vm_compute; reflexivity.
  - vm_compute; reflexivity.
Defined.

(** *** A server that is down *)

Lemma remote_tier_without (m : Manager) : remote_tier (without_remote m) = None.
Proof. unfold remote_tier; simpl; destruct (cache_backend m); reflexivity. Qed.

Lemma evict_loop_without_remote sorted_entries n (m : Manager) :
  evict_loop sorted_entries n (without_remote m)
  = (fst (evict_loop sorted_entries n m),
     without_remote (snd (evict_loop sorted_entries n m))).
Proof.
  revert sorted_entries m; induction n as [|n IH];
    intros [|[k e] rest] m; simpl; try reflexivity.
  rewrite <- IH; reflexivity.
Qed.

Lemma delete_keys_without_remote ks c (m : Manager) :
  delete_keys ks c (without_remote m)
  = (fst (delete_keys ks c m), without_remote (snd (delete_keys ks c m))).
Proof.
  revert c m; induction ks as [|k ks IH]; intros c m; simpl; [reflexivity|].
  rewrite <- IH; reflexivity.
Qed.

Lemma get_without_remote cfg now d t ns (m : Manager) r :
  redis_client m = Some r -> alive r = false ->
  get cfg now d t ns (without_remote m)
  = (fst (get cfg now d t ns m), without_remote (snd (get cfg now d t ns m))).
Proof.
  intros C A; unfold get.
  destruct (_generate_cache_key d t ns) as [k|]; [|reflexivity].
  unfold get_body; simpl.
  destruct (dict_get k (memory_cache m)) as [e|].
  - destruct (is_expired e (now 0%nat)); [reflexivity|].
    destruct (is_stale _ _ _); reflexivity.
  - rewrite remote_tier_without.
    unfold remote_tier; rewrite C.
    destruct (cache_backend m); try reflexivity;
      unfold get_remote, redis_get; rewrite A; reflexivity.
Qed.

Lemma set_without_remote cfg now d t v ttl ns (m : Manager) r :
  redis_client m = Some r -> alive r = false ->
  set cfg now d t v ttl ns (without_remote m)
  = (fst (set cfg now d t v ttl ns m),
     without_remote (snd (set cfg now d t v ttl ns m))).
Proof.
  intros C A; unfold set.
  destruct (_generate_cache_key d t ns) as [k|]; [|reflexivity].
  fold (effective_ttl cfg ttl); unfold set_body; simpl.
  set (entry := new_entry k v (now 0%nat) (effective_ttl cfg ttl)).
  set (m1 := set_memory (dict_set k entry (memory_cache m)) m).
  change (set_memory (dict_set k entry (memory_cache m)) (without_remote m))
    with (without_remote m1).
  assert (D : forall m2 : Manager,
             redis_client m2 = Some r ->
             set_remote k (effective_ttl cfg ttl) entry m2 = m2).
  { intros m2 C2; unfold set_remote, remote_tier; rewrite C2.
    destruct (cache_backend m2); try reflexivity;
      unfold redis_setex; rewrite A; reflexivity. }
  assert (N : forall m2 : Manager,
             set_remote k (effective_ttl cfg ttl) entry (without_remote m2)
             = without_remote m2).
  { intros m2; unfold set_remote; rewrite remote_tier_without; reflexivity. }
  change (memory_cache (without_remote m1)) with (memory_cache m1).
  match goal with
  | |- context [if ?c then _ else _] => destruct c
  end.
  - unfold _evict_lru_entries.
    change (memory_cache (without_remote m1)) with (memory_cache m1).
    rewrite evict_loop_without_remote.
    pose proof (evict_loop_keeps_remote (sort_by_time (memory_cache m1))
      (Z.to_nat (Z.of_nat (length (sort_by_time (memory_cache m1)))
                 - target_size cfg)) m1) as [_ C2].
    destruct (evict_loop _ _ m1) as [[[]|e] m2]; cbn [fst snd try_except] in *;
      [|reflexivity].
    rewrite N, (D m2) by (rewrite C2; exact C); reflexivity.
  - cbn [fst snd try_except]; rewrite N, (D m1) by exact C; reflexivity.
Qed.

Lemma delete_without_remote d t ns (m : Manager) r :
  redis_client m = Some r -> alive r = false ->
  delete d t ns (without_remote m)
  = (fst (delete d t ns m), without_remote (snd (delete d t ns m))).
Proof.
  intros C A; unfold delete.
  destruct (_generate_cache_key d t ns) as [k|]; [|reflexivity].
  destruct m as [b mem rc h mi s de ev ta]; simpl in C; subst rc.
  unfold delete_body, remote_tier, without_remote, redis_delete, set_memory.
  simpl; destruct (dict_mem k mem), b; simpl; rewrite ?A; reflexivity.
Qed.

Lemma delete_keys_keeps_remote ks c (m : Manager) :
  cache_backend (snd (delete_keys ks c m)) = cache_backend m /\
  redis_client (snd (delete_keys ks c m)) = redis_client m.
Proof.
  revert c m; induction ks as [|k ks IH]; intros c m; simpl; auto.
  destruct (IH (c + 1) (set_memory (dict_del k (memory_cache m)) m))
    as [-> ->]; auto.
Qed.

Lemma invalidate_without_remote d (m : Manager) r :
  redis_client m = Some r -> alive r = false ->
  invalidate_domain d (without_remote m)
  = (fst (invalidate_domain d m), without_remote (snd (invalidate_domain d m))).
Proof.
  intros C A; unfold invalidate_domain; simpl.
  rewrite delete_keys_without_remote.
  pose proof (delete_keys_keeps_remote
    (map fst (filter (fun kv => mentions (lower d) (fst kv) (value (snd kv)))
                     (memory_cache m))) 0 m) as [_ C1].
  destruct (delete_keys _ 0 m) as [c m1]; simpl in *.
  unfold invalidate_remote; rewrite remote_tier_without.
  unfold remote_tier; rewrite C1, C.
  destruct (cache_backend m1); try reflexivity;
    unfold redis_keys; rewrite A; reflexivity.
Qed.

(** X5. A Redis server that is down never changes an answer: [get],
    [set], [delete] and [invalidate_domain] return what they return
    without a Redis client and leave the same memory cache, counters and
    tasks. *)
Theorem dead_remote_is_no_remote (m : Manager) r :
  redis_client m = Some r -> alive r = false ->
  (forall cfg now d t ns,
      fst (get cfg now d t ns m) = fst (get cfg now d t ns (without_remote m)) /\
      local_view (snd (get cfg now d t ns m))
      = local_view (snd (get cfg now d t ns (without_remote m)))) /\
  (forall cfg now d t v ttl ns,
      fst (set cfg now d t v ttl ns m)
      = fst (set cfg now d t v ttl ns (without_remote m)) /\
      local_view (snd (set cfg now d t v ttl ns m))
      = local_view (snd (set cfg now d t v ttl ns (without_remote m)))) /\
  (forall d t ns,
      fst (delete d t ns m) = fst (delete d t ns (without_remote m)) /\
      local_view (snd (delete d t ns m))
      = local_view (snd (delete d t ns (without_remote m)))) /\
  (forall d,
      fst (invalidate_domain d m)
      = fst (invalidate_domain d (without_remote m)) /\
      local_view (snd (invalidate_domain d m))
      = local_view (snd (invalidate_domain d (without_remote m)))).
Proof.
  intros C A.
  split; [intros cfg now d t ns;
          rewrite (get_without_remote cfg now d t ns m r C A);
          split; reflexivity|].
  split; [intros cfg now d t v ttl0 ns;
          rewrite (set_without_remote cfg now d t v ttl0 ns m r C A);
          split; reflexivity|].
  split; [intros d t ns; rewrite (delete_without_remote d t ns m r C A);
          split; reflexivity|].
  intros d; rewrite (invalidate_without_remote d m r C A); split; reflexivity.
Qed.

Lemma dead_remote_is_no_remote_witness :
  let cfg := mkConfig Hybrid 300 60 86400 10000 300 60 true (12 # 10) 10 in
  let m := run cfg [put "x.com" "A" "1.2.3.4"]
               (new_manager cfg (Some (mkRedis false []))) in
  fst (get cfg (at_time 1) (str "x.com") (str "A") None m)
  = fst (get cfg (at_time 1) (str "x.com") (str "A") None (without_remote m)).
Proof.
  intros cfg m.
  apply (proj1 (dead_remote_is_no_remote m (mkRedis false [])
                  ltac:(vm_compute; reflexivity) ltac:(reflexivity))).
Defined.

(** The scenario of a hybrid backend whose server is down from the
    start: what is set is served from memory. *)
Example degraded_hybrid_roundtrip :
  let cfg := mkConfig Hybrid 300 60 86400 10000 300 60 true (12 # 10) 10 in
  let m := run cfg [put "x.com" "A" "1.2.3.4"]
               (new_manager cfg (Some (mkRedis false []))) in
  cache_backend m = Hybrid /\
  fst (get cfg (at_time 1) (str "x.com") (str "A") None m)
  = Ok (Some (VStr (str "1.2.3.4"))).
Proof. split; vm_compute; reflexivity. Qed.

(** ** What an operation does to the memory cache *)

Lemma filter_true {A : Type} (l : list A) : filter (fun _ => true) l = l.
Proof. induction l as [|x l IH]; simpl; [|rewrite IH]; reflexivity. Qed.

Lemma filter_false {A : Type} (l : list A) : filter (fun _ => false) l = [].
Proof. induction l as [|x l IH]; simpl; [reflexivity | exact IH]. Qed.

Lemma counters_le_refl (m : Manager) : counters_le m m.
Proof. unfold counters_le; lia. Qed.

Lemma counters_le_trans (a b c : Manager) :
  counters_le a b -> counters_le b c -> counters_le a c.
Proof. unfold counters_le; lia. Qed.

Lemma memory_step_same (m m' : Manager) b :
  memory_cache m' = memory_cache m -> memory_step m m' b.
Proof.
  intros E; exists (fun _ => true), (memory_cache m).
  rewrite filter_true; auto.
Qed.

Lemma memory_step_filter (m m' : Manager) b f :
  memory_cache m' = filter f (memory_cache m) -> memory_step m m' b.
Proof. intros E; exists f, (memory_cache m); auto. Qed.

Lemma memory_step_set (m m' : Manager) (b : bool) k e :
  is_digest k ->
  (dict_get k (memory_cache m) = None -> b = true) ->
  memory_cache m' = dict_set k e (memory_cache m) -> memory_step m m' b.
Proof.
  intros D N E; exists (fun _ => true), (dict_set k e (memory_cache m)).
  rewrite filter_true; split; [exact E|].
  right; exists k, e; auto.
Qed.

(** A step followed by deletions is a step. *)
Lemma memory_step_then_filter (m m1 m2 : Manager) b f :
  memory_step m m1 b -> memory_cache m2 = filter f (memory_cache m1) ->
  memory_step m m2 b.
Proof.
  intros (g & d0 & E & H) E2.
  exists (fun x => g x && f x), d0.
  rewrite E2, E, filter_filter; auto.
Qed.

Lemma local_step_refl (m : Manager) b : local_step m m b.
Proof.
  split; [reflexivity|].
  split; [apply counters_le_refl | apply memory_step_same; reflexivity].
Qed.

Lemma cache_key_is_digest d t ns k :
  _generate_cache_key d t ns = Ok k -> is_digest k.
Proof.
  intros K; split; [|exact (cache_key_is_hex d t ns k K)].
  unfold _generate_cache_key in K.
  destruct (encode _) as [bytes|e]; simpl in K; [|discriminate].
  injection K as <-; apply hexdigest_length.
Qed.

Lemma get_remote_step now k r (m : Manager) :
  is_digest k ->
  let p := get_remote now k r m in
  cache_backend (snd p) = cache_backend m /\
  sets (snd p) = sets m /\ deletes (snd p) = deletes m /\
  evictions (snd p) = evictions m /\ misses (snd p) = misses m /\
  hits m <= hits (snd p) /\
  memory_step m (snd p) (is_hybrid (cache_backend m)).
Proof.
  intros D; unfold get_remote.
  assert (Same : cache_backend m = cache_backend m /\
                 sets m = sets m /\ deletes m = deletes m /\
                 evictions m = evictions m /\ misses m = misses m /\
                 hits m <= hits m /\
                 memory_step m m (is_hybrid (cache_backend m))).
  { repeat split; try lia; apply memory_step_same; reflexivity. }
  destruct (redis_get r k) as [[b|]|]; simpl; try exact Same.
  destruct (unpickle b) as [re|]; simpl; try exact Same.
  destruct (remote_is_expired re (now 0%nat)) as [[|]|]; simpl; try exact Same.
  - destruct (redis_delete r [k]) as [[n r']|]; simpl; exact Same.
  - destruct (cache_backend m) eqn:B; simpl; rewrite ?B;
      repeat split; try lia;
      try (apply memory_step_same; reflexivity).
    apply (memory_step_set _ _ _ k (touch (fst re) (now 1%nat)) D);
      [reflexivity | reflexivity].
Qed.

Lemma get_step cfg now d t ns (m : Manager) :
  local_step m (snd (get cfg now d t ns m)) (is_hybrid (cache_backend m)).
Proof.
  unfold get.
  destruct (_generate_cache_key d t ns) as [k|] eqn:K;
    [|apply local_step_refl].
  pose proof (cache_key_is_digest d t ns k K) as D.
  assert (B : local_step m (snd (get_body cfg now d t ns k m))
                         (is_hybrid (cache_backend m))).
  { unfold get_body.
    destruct (dict_get k (memory_cache m)) as [e|] eqn:G.
    - destruct (is_expired e (now 0%nat)); [|destruct (is_stale _ _ _)];
        simpl; (split; [reflexivity|]);
        (split; [unfold counters_le; simpl; lia|]).
      + apply (memory_step_filter _ _ _
                 (fun kv => negb (pystr_eqb k (fst kv)))); reflexivity.
      + apply (memory_step_set _ _ _ k (touch e (now 1%nat)) D);
          [rewrite G; discriminate | reflexivity].
      + apply (memory_step_set _ _ _ k (touch e (now 1%nat)) D);
          [rewrite G; discriminate | reflexivity].
    - destruct (remote_tier m) as [r|].
      + pose proof (get_remote_step now k r m D) as H; simpl in H.
        destruct (get_remote now k r m) as [[v|] m1]; simpl in *;
          destruct H as (Hb & Hs & Hd & He & Hm & Hh & Hst);
          (split; [exact Hb|]);
          (split; [unfold counters_le; simpl; lia|]);
          destruct Hst as (f & d0 & E & H); exists f, d0; auto.
      + simpl; split; [reflexivity|].
        split; [unfold counters_le; simpl; lia|].
        apply memory_step_same; reflexivity. }
  unfold try_except.
  destruct (get_body cfg now d t ns k m) as [[a|e] m1]; simpl in *;
    [exact B|].
  destruct B as (Hb & Hc & f & d0 & E & H).
  split; [exact Hb|].
  split; [unfold counters_le in *; simpl; lia|].
  exists f, d0; auto.
Qed.

Lemma evict_loop_step sorted_entries n (m : Manager) :
  cache_backend (snd (evict_loop sorted_entries n m)) = cache_backend m /\
  counters_le m (snd (evict_loop sorted_entries n m)) /\
  exists f, memory_cache (snd (evict_loop sorted_entries n m))
            = filter f (memory_cache m).
Proof.
  revert sorted_entries m; induction n as [|n IH];
    intros [|[k e] rest] m; simpl;
    try (split; [reflexivity|]; split; [apply counters_le_refl|];
         exists (fun _ => true); rewrite filter_true; reflexivity).
  destruct (IH rest
              (bump_evictions (set_memory (dict_del k (memory_cache m)) m)))
    as (Hb & Hc & f & E).
  split; [rewrite Hb; reflexivity|].
  split; [unfold counters_le in *; simpl in *; lia|].
  exists (fun kv => negb (pystr_eqb k (fst kv)) && f kv).
  rewrite E; simpl; unfold dict_del; apply filter_filter.
Qed.

Lemma set_remote_local k t e (m : Manager) :
  cache_backend (set_remote k t e m) = cache_backend m /\
  memory_cache (set_remote k t e m) = memory_cache m /\
  hits (set_remote k t e m) = hits m /\
  misses (set_remote k t e m) = misses m /\
  sets (set_remote k t e m) = sets m /\
  deletes (set_remote k t e m) = deletes m /\
  evictions (set_remote k t e m) = evictions m.
Proof.
  unfold set_remote.
  destruct (remote_tier m) as [r|]; [|repeat split].
  destruct (redis_setex r k t (BDict e)); repeat split.
Qed.

Lemma set_step cfg now d t v ttl ns (m : Manager) :
  local_step m (snd (set cfg now d t v ttl ns m)) true.
Proof.
  unfold set.
  destruct (_generate_cache_key d t ns) as [k|] eqn:K;
    [|apply local_step_refl].
  pose proof (cache_key_is_digest d t ns k K) as D.
  fold (effective_ttl cfg ttl).
  assert (B : local_step m
                (snd (set_body cfg now k v (effective_ttl cfg ttl) m)) true).
  { unfold set_body.
    set (entry := new_entry k v (now 0%nat) (effective_ttl cfg ttl)).
    set (m1 := set_memory (dict_set k entry (memory_cache m)) m).
    assert (S1 : memory_step m m1 true)
      by (apply (memory_step_set _ _ _ k entry D); auto).
    assert (R : forall m2 : Manager,
               cache_backend m2 = cache_backend m -> counters_le m m2 ->
               (exists f, memory_cache m2 = filter f (memory_cache m1)) ->
               local_step m
                 (bump_sets (set_remote k (effective_ttl cfg ttl) entry m2))
                 true).
    { intros m2 Hb Hc [f E].
      destruct (set_remote_local k (effective_ttl cfg ttl) entry m2)
        as (L1 & L2 & L3 & L4 & L5 & L6 & L7).
      split; [simpl; congruence|].
      split; [unfold counters_le in *; simpl; lia|].
      apply (memory_step_then_filter m m1 _ true f S1).
      unfold bump_sets; cbn [memory_cache]; rewrite L2; exact E. }
    match goal with
    | |- context [if ?c then _ else _] => destruct c
    end.
    - unfold _evict_lru_entries.
      pose proof (evict_loop_step (sort_by_time (memory_cache m1))
        (Z.to_nat (Z.of_nat (length (sort_by_time (memory_cache m1)))
                   - target_size cfg)) m1) as (Hb & Hc & f & E).
      destruct (evict_loop _ _ m1) as [[[]|e] m2]; simpl in *.
      + apply R; [exact Hb | exact Hc | exists f; exact E].
      + split; [exact Hb|]; split; [exact Hc|].
        apply (memory_step_then_filter m m1 _ true f S1); exact E.
    - simpl; apply R; [reflexivity | unfold counters_le; simpl; lia|].
      exists (fun _ => true); rewrite filter_true; reflexivity. }
  unfold try_except.
  destruct (set_body cfg now k v (effective_ttl cfg ttl) m) as [[a|e] m1];
    exact B.
Qed.

Lemma delete_step d t ns (m : Manager) :
  local_step m (snd (delete d t ns m)) false.
Proof.
  unfold delete.
  destruct (_generate_cache_key d t ns) as [k|]; [|apply local_step_refl].
  destruct m as [b mem rc h mi s de ev ta].
  unfold try_except, delete_body, remote_tier, set_memory; simpl.
  assert (F : forall (m' : Manager),
             cache_backend m' = b ->
             memory_cache m' = mem \/ memory_cache m' = dict_del k mem ->
             h <= hits m' -> mi <= misses m' -> s <= sets m' ->
             de <= deletes m' -> ev <= evictions m' ->
             local_step (mkManager b mem rc h mi s de ev ta) m' false).
  { intros m' Hb Hm H1 H2 H3 H4 H5.
    split; [exact Hb|].
    split; [unfold counters_le; simpl; lia|].
    destruct Hm as [Hm|Hm].
    - apply memory_step_same; exact Hm.
    - apply (memory_step_filter _ _ _
               (fun kv => negb (pystr_eqb k (fst kv)))); exact Hm. }
  destruct (dict_mem k mem), b, rc as [r|]; simpl;
    try (apply F; simpl; auto; lia);
    destruct (redis_delete r [k]) as [[n r']|]; simpl;
    try (destruct (negb (n =? 0)); simpl);
    try (apply F; simpl; auto; lia).
Qed.

Lemma delete_keys_spec ks c (m : Manager) :
  delete_keys ks c m
  = (c + Z.of_nat (length ks),
     set_memory (remove_keys ks (memory_cache m)) m).
Proof.
  revert c m; induction ks as [|k ks IH]; intros c m.
  - simpl; rewrite remove_keys_nil, Z.add_0_r; destruct m; reflexivity.
  - cbn [delete_keys]; rewrite IH.
    unfold set_memory; cbn [memory_cache cache_backend redis_client hits
                            misses sets deletes evictions tasks].
    rewrite remove_keys_cons; f_equal.
    cbn [length]; lia.
Qed.

Lemma invalidate_remote_local dl c (m : Manager) :
  local_view (snd (invalidate_remote dl c m)) = local_view m /\
  c <= fst (invalidate_remote dl c m) /\
  (remote_tier m = None -> fst (invalidate_remote dl c m) = c).
Proof.
  unfold invalidate_remote.
  destruct (remote_tier m) as [r|];
    [|simpl; split; [reflexivity | split; [lia | reflexivity]]].
  assert (Same : local_view m = local_view m /\ c <= c /\
                 (Some r = None -> c = c))
    by (split; [reflexivity | split; [lia | reflexivity]]).
  destruct (redis_keys r) as [ks|]; simpl; [|exact Same].
  destruct (filter (remote_mentions dl r) ks) as [|k0 ks0]; [exact Same|].
  unfold redis_delete; destruct (alive r); simpl; [|exact Same].
  split; [reflexivity | split; [lia | discriminate]].
Qed.

Lemma invalidate_domain_step d (m : Manager) :
  local_step m (snd (invalidate_domain d m)) false.
Proof.
  unfold invalidate_domain; rewrite delete_keys_spec.
  set (ks := map fst (filter _ (memory_cache m))).
  set (m1 := set_memory (remove_keys ks (memory_cache m)) m).
  pose proof (invalidate_remote_local (lower d)
                (0 + Z.of_nat (length ks)) m1) as [L _].
  destruct (invalidate_remote (lower d) (0 + Z.of_nat (length ks)) m1)
    as [c m2]; simpl in *.
  unfold local_view in L; injection L as L1 L2 L3 L4 L5 L6 L7 L8.
  split; [exact L1|].
  split; [unfold counters_le; simpl in *; lia|].
  apply (memory_step_filter _ _ _
           (fun kv => negb (existsb (fun k => pystr_eqb k (fst kv)) ks))).
  exact L2.
Qed.

Lemma cleanup_spec now (m : Manager) :
  cleanup now m
  = set_memory (remove_keys (expired_keys now 0 (memory_cache m))
                            (memory_cache m)) m.
Proof.
  unfold cleanup; generalize (expired_keys now 0 (memory_cache m)).
  intros ks; revert m; induction ks as [|k ks IH]; intros m.
  - simpl; rewrite remove_keys_nil; destruct m; reflexivity.
  - cbn [fold_left]; rewrite IH.
    unfold set_memory; cbn [memory_cache cache_backend redis_client hits
                            misses sets deletes evictions tasks].
    rewrite remove_keys_cons; reflexivity.
Qed.

Lemma cleanup_step now (m : Manager) : local_step m (cleanup now m) false.
Proof.
  rewrite cleanup_spec.
  split; [reflexivity|].
  split; [unfold counters_le; simpl; lia|].
  eapply memory_step_filter; reflexivity.
Qed.

Lemma clear_cache_step (m : Manager) : local_step m (snd (clear_cache m)) false.
Proof.
  unfold clear_cache.
  assert (F : forall m' : Manager,
             local_view m' = local_view (set_memory [] m) ->
             local_step m m' false).
  { intros m' L; unfold local_view in L.
    injection L as L1 L2 L3 L4 L5 L6 L7 L8.
    split; [exact L1|].
    split; [unfold counters_le; simpl in *; lia|].
    apply (memory_step_filter _ _ _ (fun _ => false)).
    rewrite filter_false; exact L2. }
  destruct (remote_tier (set_memory [] m)) as [r|]; [|apply F; reflexivity].
  destruct (redis_flushdb r) as [[b r']|]; apply F; reflexivity.
Qed.

(** Every operation of a run keeps the backend, lets no counter fall
    and changes the memory cache by one store at most, then deletions. *)
Lemma step_local cfg (m : Manager) (o : Op) :
  local_step m (step cfg m o) (may_insert_of m o).
Proof.
  destruct o; simpl.
  - apply get_step.
  - apply set_step.
  - apply delete_step.
  - apply invalidate_domain_step.
  - apply cleanup_step.
  - apply clear_cache_step.
  - split; [reflexivity|].
    split; [unfold counters_le; simpl; lia
           | apply memory_step_same; reflexivity].
Qed.

Lemma memory_step_wf (m m' : Manager) b :
  memory_step m m' b -> dict_wf (memory_cache m) -> dict_wf (memory_cache m').
Proof.
  intros (f & d0 & E & H) W; rewrite E.
  apply map_fst_filter_NoDup.
  destruct H as [->|(k & e & _ & -> & _)]; [exact W|].
  apply dict_set_wf; exact W.
Qed.


Lemma memory_step_length (m m' : Manager) :
  memory_step m m' false ->
  (length (memory_cache m') <= length (memory_cache m))%nat.
Proof.
  intros (f & d0 & E & H); rewrite E.
  etransitivity; [apply filter_length_le|].
  destruct H as [->|(k & e & _ & -> & N)]; [reflexivity|].
  destruct (dict_get k (memory_cache m)) as [e0|] eqn:G.
  - rewrite (dict_set_length_old _ _ _ _ G); reflexivity.
  - specialize (N eq_refl); discriminate.
Qed.

Lemma run_snoc cfg ops o (m : Manager) :
  run cfg (ops ++ [o]) m = step cfg (run cfg ops m) o.
Proof. unfold run; rewrite fold_left_app; reflexivity. Qed.

Lemma new_manager_empty cfg server :
  memory_cache (new_manager cfg server) = [].
Proof.
  unfold new_manager.
  destruct (backend cfg), server as [r|]; try destruct (alive r); reflexivity.
Qed.


(** ** Invalidation, by what it looks at *)

Lemma NoDup_keys_inj {V : Type} (d : list (pystr * V)) (x y : pystr * V) :
  dict_wf d -> In x d -> In y d -> fst x = fst y -> x = y.
Proof.
  unfold dict_wf; induction d as [|z d IH]; simpl; [tauto|].
  intros N Hx Hy E; inversion N as [|? ? Hn N']; subst.
  destruct Hx as [->|Hx], Hy as [->|Hy]; auto.
  - exfalso; apply Hn; rewrite E; apply in_map; exact Hy.
  - exfalso; apply Hn; rewrite <- E; apply in_map; exact Hx.
Qed.

(** Deleting the keys of the entries that pass a test leaves the
    entries that fail it, when every key occurs once. *)
Lemma remove_keys_of_filter {V : Type} (f : pystr * V -> bool)
    (d : list (pystr * V)) :
  dict_wf d ->
  remove_keys (map fst (filter f d)) d = filter (fun kv => negb (f kv)) d.
Proof.
  intros W; unfold remove_keys; apply filter_ext_in; intros x Hx.
  f_equal.
  destruct (f x) eqn:Fx.
  - apply existsb_key_In, in_map, filter_In; auto.
  - apply not_true_is_false; intros H.
    apply existsb_key_In, in_map_iff in H; destruct H as [y [E Hy]].
    apply filter_In in Hy; destruct Hy as [Hy Fy].
    rewrite (NoDup_keys_inj d y x W Hy Hx E) in Fy; congruence.
Qed.



Lemma contains_empty (s : pystr) : contains [] s = true.
Proof. destruct s; reflexivity. Qed.

(** X7. The empty domain is contained in every key, so
    [invalidate_domain] of it empties the memory cache, whatever it
    holds; with no remote tier in use it returns the number of entries
    there were. *)
Theorem invalidate_empty_domain_clears (m : Manager) :
  memory_cache (snd (invalidate_domain [] m)) = [] /\
  (remote_tier m = None ->
   fst (invalidate_domain [] m) = Ok (Z.of_nat (length (memory_cache m)))).
Proof.
  unfold invalidate_domain; simpl lower.
  assert (F : filter (fun kv : pystr * CacheEntry =>
                        mentions [] (fst kv) (value (snd kv)))
                     (memory_cache m) = memory_cache m).
  { erewrite filter_ext; [apply filter_true|].
    intros kv; unfold mentions; rewrite contains_empty; reflexivity. }
  rewrite F, delete_keys_spec.
  set (m1 := set_memory (remove_keys (map fst (memory_cache m))
                                     (memory_cache m)) m).
  pose proof (invalidate_remote_local []
                (0 + Z.of_nat (length (map fst (memory_cache m)))) m1)
    as (L & _ & N).
  destruct (invalidate_remote [] _ m1) as [c m2]; simpl in *.
  unfold local_view in L; injection L as _ L2 _.
  split.
  - rewrite L2; apply remove_keys_all; intros; apply in_map; assumption.
  - intros T; rewrite (N T), length_map; reflexivity.
Qed.

Lemma invalidate_empty_domain_clears_witness :
  let cfg := default_config in
  let m := run cfg [put "example.com" "A" "93.184.216.34";
                    put "other.com" "TXT" "v=spf1 -all"]
               (new_manager cfg None) in
  fst (invalidate_domain [] m) = Ok 2.
Proof.
  intros cfg m.
  apply (proj2 (invalidate_empty_domain_clears m)); reflexivity.
Defined.




(** ** Capacity *)

Lemma evicted_length (items : list (pystr * CacheEntry)) (n : nat) :
  dict_wf items -> (n <= length items)%nat ->
  length (remove_keys (map fst (firstn n (sort_by_time items))) items)
  = (length items - n)%nat.
Proof.
  intros W H.
  set (sorted := sort_by_time items).
  assert (P : Permutation items sorted) by apply sort_by_time_perm.
  assert (S : firstn n sorted ++ skipn n sorted = sorted)
    by apply firstn_skipn.
  assert (Ws : dict_wf (firstn n sorted ++ skipn n sorted)).
  { rewrite S; unfold dict_wf.
    apply (Permutation_NoDup (Permutation_map fst P)); exact W. }
  assert (Pk : Permutation (remove_keys (map fst (firstn n sorted)) items)
                           (skipn n sorted)).
  { rewrite <- (remove_keys_prefix _ _ Ws).
    rewrite S; apply filter_perm; exact P. }
  rewrite (Permutation_length Pk), length_skipn.
  subst sorted; rewrite sort_by_time_length; reflexivity.
Qed.

Lemma set_capacity cfg now d t v ttl ns (m : Manager) :
  dict_wf (memory_cache m) -> 0 <= max_entries cfg ->
  Z.of_nat (length (memory_cache m)) <= max_entries cfg ->
  Z.of_nat (length (memory_cache (snd (set cfg now d t v ttl ns m))))
  <= max_entries cfg.
Proof.
  intros W M L; unfold set.
  destruct (_generate_cache_key d t ns) as [k|]; [|exact L].
  fold (effective_ttl cfg ttl).
  set (entry := new_entry k v (now 0%nat) (effective_ttl cfg ttl)).
  set (items := dict_set k entry (memory_cache m)).
  destruct (target_size_floor cfg M) as [_ [T0 TM]].
  destruct (Z_le_gt_dec (Z.of_nat (length items)) (max_entries cfg)) as [R|F].
  - rewrite (set_body_room cfg now k v (effective_ttl cfg ttl) m R); simpl.
    rewrite (proj1 (set_remote_memory _ _ _ _)); exact R.
  - rewrite (set_body_full cfg now k v (effective_ttl cfg ttl) m
               ltac:(fold entry items; lia) T0); simpl.
    rewrite (proj1 (set_remote_memory _ _ _ _)); simpl.
    fold entry; fold items.
    rewrite evicted_length;
      [lia | apply dict_set_wf; exact W | lia].
Qed.

Lemma step_capacity cfg (m : Manager) (o : Op) :
  0 <= max_entries cfg ->
  cache_backend m <> Hybrid -> dict_wf (memory_cache m) ->
  Z.of_nat (length (memory_cache m)) <= max_entries cfg ->
  Z.of_nat (length (memory_cache (step cfg m o))) <= max_entries cfg.
Proof.
  intros M B W L.
  destruct (step_local cfg m o) as (_ & _ & S).
  assert (N : may_insert_of m o = false ->
              Z.of_nat (length (memory_cache (step cfg m o)))
              <= max_entries cfg).
  { intros E; rewrite E in S.
    pose proof (memory_step_length _ _ S); lia. }
  destruct o; try (apply N; reflexivity).
  - apply N; simpl; destruct (cache_backend m); try reflexivity.
    contradiction.
  - simpl; apply set_capacity; assumption.
Qed.

(** X9. With a memory or Redis backend and a capacity that is not
    negative, the memory cache never holds more than [max_entries]
    entries, after any run of operations from a new manager. *)
Theorem capacity_is_kept cfg server ops :
  backend cfg <> Hybrid -> 0 <= max_entries cfg ->
  Z.of_nat (length (memory_cache (run cfg ops (new_manager cfg server))))
  <= max_entries cfg.
Proof.
  intros B M.
  assert (I : forall m : Manager,
             cache_backend m <> Hybrid -> dict_wf (memory_cache m) ->
             Z.of_nat (length (memory_cache m)) <= max_entries cfg ->
             Z.of_nat (length (memory_cache (run cfg ops m)))
             <= max_entries cfg).
  { unfold run; induction ops as [|o ops IH]; intros m Hb W L; simpl;
      [exact L|].
    destruct (step_local cfg m o) as (Eb & _ & S).
    apply IH.
    - rewrite Eb; exact Hb.
    - exact (memory_step_wf _ _ _ S W).
    - apply step_capacity; assumption. }
  apply I.
  - unfold new_manager.
    destruct (backend cfg), server as [r|]; try destruct (alive r); simpl;
      congruence.
  - rewrite new_manager_empty; constructor.
  - rewrite new_manager_empty; simpl; exact M.
Qed.

Lemma capacity_is_kept_witness :
  let cfg := with_max_entries 2 in
  Z.of_nat (length (memory_cache
                      (run cfg [put "a.example" "A" "192.0.2.1";
                                put "b.example" "A" "192.0.2.2";
                                put "c.example" "A" "192.0.2.3"]
                           (new_manager cfg None)))) <= 2.
Proof.
  intros cfg.
  apply (capacity_is_kept cfg None).
  - discriminate.
  - vm_compute; discriminate.
Defined.

(** ** Counters *)

(** X10. Over any run of operations no counter of the statistics
    (hits, misses, sets, deletes, evictions) ever decreases, and the
    backend the manager works with does not change. *)
Theorem counters_never_decrease cfg ops (m : Manager) :
  counters_le m (run cfg ops m) /\
  cache_backend (run cfg ops m) = cache_backend m.
Proof.
  unfold run; revert m; induction ops as [|o ops IH]; intros m; simpl.
  - split; [apply counters_le_refl | reflexivity].
  - destruct (step_local cfg m o) as (Eb & C & _).
    destruct (IH (step cfg m o)) as [C' Eb'].
    split; [exact (counters_le_trans _ _ _ C C') | congruence].
Qed.

(** ** The periodic sweep *)

Lemma expired_keys_still now t i (d : list (pystr * CacheEntry)) :
  (forall j, now j = t) ->
  expired_keys now i d
  = map fst (filter (fun kv => is_expired (snd kv) t) d).
Proof.
  intros H; revert i; induction d as [|[k e] d IH]; intros i; simpl;
    [reflexivity|].
  rewrite H, IH; destruct (is_expired e t); reflexivity.
Qed.

(** X11. One round of the periodic cleanup, on a memory cache with one
    entry per key and a clock that stands still at [t] during the round,
    removes exactly the entries expired at [t] and keeps the others in
    their order; it touches nothing else of the manager. *)
Theorem cleanup_removes_expired now t (m : Manager) :
  dict_wf (memory_cache m) ->
  (forall j, now j = t) ->
  cleanup now m
  = set_memory (filter (fun kv => negb (is_expired (snd kv) t))
                       (memory_cache m)) m /\
  Forall (fun kv => expires_at (snd kv) >= t) (memory_cache (cleanup now m)).
Proof.
  intros W H.
  assert (E : cleanup now m
              = set_memory (filter (fun kv => negb (is_expired (snd kv) t))
                                   (memory_cache m)) m).
  { rewrite cleanup_spec, (expired_keys_still now t 0 _ H).
    rewrite (remove_keys_of_filter _ _ W); reflexivity. }
  split; [exact E|].
  rewrite E; simpl; rewrite Forall_forall; intros kv Hkv.
  apply filter_In in Hkv; destruct Hkv as [_ N].
  apply negb_true_iff in N; unfold is_expired in N.
  apply Z.ltb_ge in N; lia.
Qed.

Lemma cleanup_removes_expired_witness :
  let cfg := default_config in
  let m := run cfg [OpSet (at_time 0) (str "a.example") (str "A")
                          (VStr (str "192.0.2.1")) (Some 60) None;
                    OpSet (at_time 0) (str "b.example") (str "A")
                          (VStr (str "192.0.2.2")) (Some 600) None]
               (new_manager cfg None) in
  Forall (fun kv => expires_at (snd kv) >= 100000000)
         (memory_cache (cleanup (at_time 100000000) m)).
Proof.
  intros cfg m.
  apply (proj2 (cleanup_removes_expired (at_time 100000000) 100000000 m
    ltac:(vm_compute; repeat constructor; simpl; intuition discriminate)
    ltac:(reflexivity))).
Defined.

(** ** Statistics *)

Lemma new_manager_counters cfg server :
  hits (new_manager cfg server) = 0 /\ misses (new_manager cfg server) = 0.
Proof.
  unfold new_manager.
  destruct (backend cfg), server as [r|]; try destruct (alive r); auto.
Qed.

Lemma run_counters cfg ops (m : Manager) : counters_le m (run cfg ops m).
Proof.
  unfold run; revert m; induction ops as [|o ops IH]; intros m; simpl;
    [apply counters_le_refl|].
  destruct (step_local cfg m o) as (_ & C & _).
  exact (counters_le_trans _ _ _ C (IH _)).
Qed.

Lemma rate_bounds (h total : Z) :
  0 <= h <= total -> 0 < total ->
  (0 <= inject_Z h / inject_Z total)%Q /\
  (inject_Z h / inject_Z total <= 1)%Q.
Proof.
  intros H T; destruct total as [|p|p]; try lia.
  unfold Qdiv, Qinv, Qmult, Qle, inject_Z; simpl; split; lia.
Qed.

(** X12. In every state that a run reaches from a new manager the hit
    rate and the miss rate of [get_cache_stats] lie between 0 and 1 and
    add up to 1 (the floats read as exact rationals); before the first
    request the hit rate is 0 and the miss rate 1. *)
Theorem stats_rates cfg server ops sizeof_dict sizeof_value now :
  let m := run cfg ops (new_manager cfg server) in
  let s := get_cache_stats sizeof_dict sizeof_value now m in
  (hit_rate s + miss_rate s == 1)%Q /\
  (0 <= hit_rate s)%Q /\ (hit_rate s <= 1)%Q /\
  (0 <= miss_rate s)%Q /\ (miss_rate s <= 1)%Q /\
  (hits m + misses m = 0 -> hit_rate s = 0%Q /\ miss_rate s = 1%Q).
Proof.
  intros m s.
  destruct (new_manager_counters cfg server) as [H0 M0].
  pose proof (run_counters cfg ops (new_manager cfg server)) as C.
  fold m in C; unfold counters_le in C; rewrite H0, M0 in C.
  destruct C as (Hh & Hm & _).
  subst s; unfold get_cache_stats; simpl.
  destruct (0 <? hits m + misses m) eqn:T.
  - apply Z.ltb_lt in T.
    destruct (rate_bounds (hits m) (hits m + misses m)) as [R0 R1];
      [lia | exact T|].
    set (r := (inject_Z (hits m) / inject_Z (hits m + misses m))%Q) in *.
    split; [ring|].
    split; [exact R0|]; split; [exact R1|].
    split; [lra|]; split; [lra | lia].
  - repeat split; try reflexivity; discriminate.
Qed.

Lemma stats_rates_witness :
  let cfg := default_config in
  let m := new_manager cfg None in
  let s := get_cache_stats (fun _ => 64) (fun _ => 50) (at_time 0) m in
  hit_rate s = 0%Q /\ miss_rate s = 1%Q.
Proof.
  intros cfg m s.
  apply (proj2 (proj2 (proj2 (proj2 (proj2
    (stats_rates cfg None [] (fun _ => 64) (fun _ => 50) (at_time 0))))))).
  reflexivity.
Defined.

Lemma insert_by_count_perm x l : Permutation (x :: l) (insert_by_count x l).
Proof.
  induction l as [|y l IH]; simpl; [reflexivity|].
  destruct (snd y <=? snd x); [reflexivity|].
  rewrite perm_swap; apply perm_skip; exact IH.
Qed.

Lemma sort_by_count_perm l : Permutation l (sort_by_count l).
Proof.
  induction l as [|x l IH]; simpl; [reflexivity|].
  rewrite <- insert_by_count_perm; apply perm_skip; exact IH.
Qed.

Lemma insert_by_count_sorted x l :
  StronglySorted (fun a b : pystr * Z => snd b <= snd a) l ->
  StronglySorted (fun a b : pystr * Z => snd b <= snd a) (insert_by_count x l).
Proof.
  induction l as [|y l IH]; simpl; intros S.
  - constructor; constructor.
  - inversion S as [|? ? S' F]; subst.
    destruct (snd y <=? snd x) eqn:E.
    + apply Z.leb_le in E.
      constructor; [exact S|].
      constructor; [exact E|].
      eapply Forall_impl; [|exact F]; simpl; intros; lia.
    + apply Z.leb_gt in E.
      constructor; [exact (IH S')|].
      apply (Permutation_Forall (insert_by_count_perm x l)).
      constructor; [lia | exact F].
Qed.

Lemma sort_by_count_sorted l :
  StronglySorted (fun a b : pystr * Z => snd b <= snd a) (sort_by_count l).
Proof.
  induction l as [|x l IH]; simpl; [constructor|].
  apply insert_by_count_sorted; exact IH.
Qed.

(** X13. The [most_accessed] list of [get_cache_stats] names ten keys,
    or all of them when the cache holds fewer; they are keys of the
    cache, and no entry left out has been read more often than one that
    is listed. *)
Theorem stats_most_accessed sizeof_dict sizeof_value now (m : Manager) :
  let s := get_cache_stats sizeof_dict sizeof_value now m in
  let counts := map (fun kv => (fst kv, access_count (snd kv)))
                    (memory_cache m) in
  length (most_accessed s) = Nat.min 10 (length (memory_cache m)) /\
  incl (most_accessed s) (map fst (memory_cache m)) /\
  exists top rest,
    most_accessed s = map fst top /\
    Permutation counts (top ++ rest) /\
    forall a b, In a top -> In b rest -> snd b <= snd a.
Proof.
  intros s counts; subst s; unfold get_cache_stats; cbn [most_accessed];
    fold counts.
  pose proof (sort_by_count_perm counts) as P.
  split; [|split].
  - rewrite length_map, length_firstn, <- (Permutation_length P).
    subst counts; rewrite length_map; reflexivity.
  - intros k Hk; apply in_map_iff in Hk; destruct Hk as [x [<- Hx]].
    apply In_firstn in Hx.
    apply (Permutation_in _ (Permutation_sym P)) in Hx.
    subst counts; apply in_map_iff in Hx; destruct Hx as [kv [<- Hkv]].
    simpl; apply in_map; exact Hkv.
  - exists (firstn 10 (sort_by_count counts)),
           (skipn 10 (sort_by_count counts)).
    split; [reflexivity|].
    rewrite firstn_skipn; split; [exact P|].
    apply (sorted_app_le (fun a b : pystr * Z => snd b <= snd a)).
    rewrite firstn_skipn; apply sort_by_count_sorted.
Qed.

Lemma sum_ttl_bounds cfg (d : list (pystr * CacheEntry)) :
  store_ok cfg d ->
  Z.of_nat (length d) * ttl_min cfg <= sum_ttl d
  <= Z.of_nat (length d) * ttl_max cfg.
Proof.
  induction 1 as [|kv d [[H1 H2] _] _ IH]; [simpl; lia|].
  change (sum_ttl (kv :: d)) with (ttl (snd kv) + sum_ttl d).
  rewrite length_cons, Nat2Z.inj_succ; lia.
Qed.

Lemma count_expired_bounds now i (d : list (pystr * CacheEntry)) :
  0 <= count_expired now i d <= Z.of_nat (length d).
Proof.
  revert i; induction d as [|[k e] d IH]; intros i; [simpl; lia|].
  cbn [count_expired]; rewrite length_cons, Nat2Z.inj_succ.
  specialize (IH (S i)); destruct (is_expired e (now i)); lia.
Qed.

(** X14. In every state that a run reaches from a new manager, with
    limits that form an interval and no foreign entry on the server
    that breaks the invariants, the average TTL of [get_cache_stats]
    lies within the limits when the cache is not empty and is 0 when it
    is; the number of expired entries lies between 0 and the number of
    entries. *)
Theorem stats_average_ttl cfg server ops sizeof_dict sizeof_value now :
  ttl_min cfg <= ttl_max cfg ->
  remote_ok cfg server ->
  let m := run cfg ops (new_manager cfg server) in
  let s := get_cache_stats sizeof_dict sizeof_value now m in
  (memory_cache m = [] -> avg_ttl s = 0%Q) /\
  (memory_cache m <> [] ->
   (inject_Z (ttl_min cfg) <= avg_ttl s)%Q /\
   (avg_ttl s <= inject_Z (ttl_max cfg))%Q) /\
  total_entries s = Z.of_nat (length (memory_cache m)) /\
  0 <= expired_entries s <= total_entries s.
Proof.
  intros L R m s.
  destruct (run_ok cfg ops (new_manager cfg server) L
              (new_manager_ok cfg server R)) as (S & _ & _).
  fold m in S.
  pose proof (sum_ttl_bounds cfg (memory_cache m) S) as B.
  subst s; unfold get_cache_stats; simpl.
  split; [intros ->; reflexivity|].
  split; [|split; [reflexivity | apply count_expired_bounds]].
  intros N.
  destruct (memory_cache m) as [|kv d] eqn:E; [contradiction|].
  set (n := Z.of_nat (length (kv :: d))) in *.
  assert (P : 0 < n) by (subst n; rewrite length_cons; lia).
  destruct n as [|p|p]; try lia.
  unfold Qdiv, Qinv, Qmult, Qle, inject_Z; simpl.
  change (sum_ttl (kv :: d)) with (ttl (snd kv) + sum_ttl d) in B; lia.
Qed.

Lemma stats_average_ttl_witness :
  let cfg := default_config in
  let m := run cfg [put "example.com" "A" "192.0.2.1"] (new_manager cfg None) in
  let s := get_cache_stats (fun _ => 64) (fun _ => 50) (at_time 0) m in
  0 <= expired_entries s <= total_entries s.
Proof.
  intros cfg m s.
  apply (stats_average_ttl cfg None [put "example.com" "A" "192.0.2.1"]
           (fun _ => 64) (fun _ => 50) (at_time 0)).
  - vm_compute; discriminate.
  - exact I.
Defined.

(** ** The range of the optimizer *)

(** X15. [optimize_ttl] never raises and answers either the configured
    default TTL or, when the limits form an interval, a TTL within
    them; with automatic adjustment off, for an entry that is not
    cached under the key without nameserver, or for a domain that cannot
    be encoded, it answers the default. *)
Theorem optimize_ttl_range cfg now d t (m : Manager) :
  (ttl_min cfg <= ttl_max cfg ->
   optimize_ttl cfg now d t m = ttl_default cfg \/
   ttl_min cfg <= optimize_ttl cfg now d t m <= ttl_max cfg) /\
  (auto_ttl_adjustment cfg = false ->
   optimize_ttl cfg now d t m = ttl_default cfg) /\
  (forall k, _generate_cache_key d t None = Ok k ->
             dict_get k (memory_cache m) = None ->
             optimize_ttl cfg now d t m = ttl_default cfg) /\
  (forall e, _generate_cache_key d t None = Raise e ->
             optimize_ttl cfg now d t m = ttl_default cfg).
Proof.
  unfold optimize_ttl.
  split; [|split; [|split]].
  - intros L.
    destruct (auto_ttl_adjustment cfg); simpl; [|auto].
    destruct (_generate_cache_key d t None) as [k|]; simpl; [|auto].
    destruct (dict_get k (memory_cache m)) as [e|]; [|auto].
    destruct (min_access_for_adjustment cfg <=? access_count e); [|auto].
    unfold optimal_ttl.
    destruct (negb (Qle_bool (access_per_hour e (now 0%nat)) 10)); simpl;
      [right; apply clamp_ttl_bounds; exact L|].
    destruct (negb (Qle_bool 1 (access_per_hour e (now 0%nat)))); simpl;
      [|right; apply clamp_ttl_bounds; exact L].
    destruct (Qeq_bool (ttl_adjustment_factor cfg) 0); simpl;
      [auto | right; apply clamp_ttl_bounds; exact L].
  - intros ->; reflexivity.
  - intros k K G; destruct (auto_ttl_adjustment cfg); simpl; [|reflexivity].
    rewrite K; simpl; rewrite G; reflexivity.
  - intros e K; destruct (auto_ttl_adjustment cfg); simpl; [|reflexivity].
    rewrite K; reflexivity.
Qed.

Lemma optimize_ttl_range_witness :
  let cfg := default_config in
  let m := new_manager cfg None in
  optimize_ttl cfg (at_time 0) (56575 :: str ".com") (str "A") m = 300.
Proof.
  intros cfg m.
  apply (proj2 (proj2 (proj2
    (optimize_ttl_range cfg (at_time 0) (56575 :: str ".com") (str "A") m)))
    UnicodeEncodeError).
  reflexivity.
Defined.

(** ** Reading and writing again *)








(** ** Clearing *)

(** A [get] on an empty memory cache misses when the server, if one is
    in use, is down or holds nothing. *)
Lemma get_empty_misses cfg now d t ns (m : Manager) k :
  _generate_cache_key d t ns = Ok k ->
  memory_cache m = [] ->
  (forall r, remote_tier m = Some r -> alive r = false \/ db r = []) ->
  fst (get cfg now d t ns m) = Ok None.
Proof.
  intros K E H; unfold get, get_body; rewrite K, E; simpl.
  destruct (remote_tier m) as [r|]; [|reflexivity].
  unfold get_remote, redis_get.
  destruct (H r eq_refl) as [A|D].
  - rewrite A; reflexivity.
  - rewrite D; destruct (alive r); reflexivity.
Qed.

(** X19. [clear_cache] empties the memory cache and, when the server
    answers, the database; it returns the number of memory entries,
    plus one (the [True] of [flushdb]) when the flush succeeded,
    whatever the server held. After it every [get] misses. *)
Theorem clear_cache_then_miss cfg now d t ns (m : Manager) k :
  _generate_cache_key d t ns = Ok k ->
  let size := Z.of_nat (length (memory_cache m)) in
  memory_cache (snd (clear_cache m)) = [] /\
  (fst (clear_cache m) = size \/ fst (clear_cache m) = size + 1) /\
  (remote_tier m = None -> fst (clear_cache m) = size) /\
  (forall r, remote_tier m = Some r -> alive r = true ->
             fst (clear_cache m) = size + 1 /\
             redis_client (snd (clear_cache m)) = Some (mkRedis true [])) /\
  fst (get cfg now d t ns (snd (clear_cache m))) = Ok None.
Proof.
  intros K size; subst size.
  destruct m as [b mem rc h mi s de ev ta].
  unfold clear_cache, remote_tier, set_memory, set_redis, redis_flushdb;
    simpl.
  destruct b, rc as [r|]; try destruct (alive r) eqn:A; simpl;
    (split; [reflexivity|]); (split; [auto|]);
    (split; [try discriminate; reflexivity|]);
    (split; [try discriminate; try (intros r0 [= <-] A'; auto; congruence)|]);
    (eapply get_empty_misses;
     [exact K | reflexivity
     | unfold remote_tier; simpl; intros r0 R0;
       try discriminate; injection R0 as <-; auto]).
Qed.

Lemma clear_cache_then_miss_witness :
  let cfg := default_config in
  let m := run cfg [put "example.com" "A" "192.0.2.1"] (new_manager cfg None) in
  fst (clear_cache m) = Z.of_nat (length (memory_cache m)).
Proof.
  intros cfg m.
  apply (clear_cache_then_miss cfg (at_time 0) (str "example.com") (str "A")
           None m (str "bc6fa0606cd95fb7d9bbfc62bf165834")
           ltac:(vm_compute; reflexivity)).
  reflexivity.
Defined.

(** ** Least recently used *)

Lemma dict_get_set_other {V : Type} (k k0 : pystr) (v : V)
    (d : list (pystr * V)) :
  k0 <> k -> dict_get k0 (dict_set k v d) = dict_get k0 d.
Proof.
  intros N; induction d as [|[k' v'] d IH]; simpl.
  - rewrite (pystr_eqb_neq k0 k N); reflexivity.
  - destruct (pystr_eqb k k') eqn:E; simpl.
    + apply pystr_eqb_spec in E; subst k'.
      rewrite (pystr_eqb_neq k0 k N); reflexivity.
    + rewrite IH; reflexivity.
Qed.

Lemma In_dict_set_other {V : Type} (k k0 : pystr) (v v0 : V)
    (d : list (pystr * V)) :
  k0 <> k -> In (k0, v0) d -> In (k0, v0) (dict_set k v d).
Proof.
  intros N; induction d as [|[k' v'] d IH]; simpl; [tauto|].
  destruct (pystr_eqb k k') eqn:E; simpl.
  - apply pystr_eqb_spec in E; subst k'.
    intros [[= -> _]|H]; [contradiction | right; exact H].
  - intros [H|H]; [left; exact H | right; exact (IH H)].
Qed.

(** X20. The entry read last is safe from the next eviction: if one
    entry of the memory cache has an access time later than every other
    and the eviction target int(max_entries * 0.9) is at least 2, a
    [set] of another key, evicting or not, leaves that entry in the
    cache. *)
Theorem most_recent_entry_survives
    cfg now d t v ttl ns (m : Manager) k k0 e0 :
  _generate_cache_key d t ns = Ok k ->
  dict_wf (memory_cache m) ->
  2 <= target_size cfg ->
  k0 <> k ->
  dict_get k0 (memory_cache m) = Some e0 ->
  (forall k1 e1, In (k1, e1) (memory_cache m) -> k1 <> k0 ->
                 access_time e1 < access_time e0) ->
  dict_get k0 (memory_cache (snd (set cfg now d t v ttl ns m))) = Some e0.
Proof.
  intros K W T N G Max.
  assert (M : 0 <= max_entries cfg) by (apply target_size_positive; lia).
  destruct (target_size_floor cfg M) as [_ [T0 TM]].
  unfold set; rewrite K; fold (effective_ttl cfg ttl).
  set (entry := new_entry k v (now 0%nat) (effective_ttl cfg ttl)).
  set (items := dict_set k entry (memory_cache m)).
  assert (Gi : dict_get k0 items = Some e0)
    by (subst items; rewrite dict_get_set_other; assumption).
  destruct (Z_le_gt_dec (Z.of_nat (length items)) (max_entries cfg)) as [R|F].
  { rewrite (set_body_room cfg now k v (effective_ttl cfg ttl) m R); simpl.
    rewrite (proj1 (set_remote_memory _ _ _ _)); exact Gi. }
  rewrite (set_body_full cfg now k v (effective_ttl cfg ttl) m
             ltac:(fold entry items; lia) T0); simpl.
  rewrite (proj1 (set_remote_memory _ _ _ _)); simpl.
  fold entry; fold items.
  set (n := Z.to_nat (Z.of_nat (length items) - target_size cfg)).
  rewrite dict_get_remove_keys; [exact Gi|].
  set (sorted := sort_by_time items).
  assert (P : Permutation items sorted) by apply sort_by_time_perm.
  assert (S : firstn n sorted ++ skipn n sorted = sorted)
    by apply firstn_skipn.
  assert (Wi : dict_wf items) by (apply dict_set_wf; exact W).
  assert (Ws : dict_wf (firstn n sorted ++ skipn n sorted)).
  { rewrite S; unfold dict_wf.
    apply (Permutation_NoDup (Permutation_map fst P)); exact Wi. }
  assert (Lk : (2 <= length (skipn n sorted))%nat).
  { rewrite length_skipn; subst sorted; rewrite sort_by_time_length.
    subst n; lia. }
  intros Hin.
  assert (Hk : forall s, In s (skipn n sorted) -> s = (k, entry)).
  { intros s Hs.
    assert (Hsi : In s items).
    { apply (Permutation_in _ (Permutation_sym P)).
      rewrite <- S; apply in_or_app; right; exact Hs. }
    destruct (dict_set_In _ _ _ _ Hsi) as [E|Hm]; [exact E|].
    exfalso.
    assert (Ne : fst s <> k0).
    { intros E.
      assert (Ws' : NoDup (map fst (firstn n sorted)
                           ++ map fst (skipn n sorted)))
        by (rewrite <- map_app; exact Ws).
      apply (NoDup_app_disjoint _ _ k0 Ws' Hin).
      rewrite <- E; apply in_map; exact Hs. }
    apply in_map_iff in Hin; destruct Hin as [x [Ex Hx]].
    assert (Hxi : In x items)
      by (apply (Permutation_in _ (Permutation_sym P)), (In_firstn n);
          exact Hx).
    assert (E0 : x = (k0, e0)).
    { apply (NoDup_keys_inj items x (k0, e0) Wi Hxi);
        [apply dict_get_In; exact Gi | exact Ex]. }
    pose proof (sorted_app_le time_le (firstn n sorted) (skipn n sorted)
                  ltac:(rewrite S; apply sort_by_time_sorted) x s Hx Hs) as Le.
    destruct s as [k1 e1]; simpl in Ne.
    pose proof (Max k1 e1 Hm Ne) as Lt.
    rewrite E0 in Le; unfold time_le in Le; simpl in Le; lia. }
  destruct (skipn n sorted) as [|s1 [|s2 rest]] eqn:Sk;
    simpl in Lk; try lia.
  assert (E1 : s1 = (k, entry)) by (apply Hk; simpl; auto).
  assert (E2 : s2 = (k, entry)) by (apply Hk; simpl; auto).
  unfold dict_wf in Ws; rewrite map_app in Ws.
  apply NoDup_app_remove_l in Ws; simpl in Ws.
  inversion Ws as [|? ? Hn _]; subst.
  apply Hn; simpl; auto.
Qed.

Lemma most_recent_entry_survives_witness :
  let cfg := with_max_entries 3 in
  let m := run cfg
             [OpSet (at_time 1) (str "a.example") (str "A") (VInt 1) None None;
              OpSet (at_time 2) (str "b.example") (str "A") (VInt 2) None None;
              OpSet (at_time 3) (str "c.example") (str "A") (VInt 3) None None]
             (new_manager cfg None) in
  exists e0,
    dict_get (str "ecca2f8d527bd8806ce7452d543aa4b9")
      (memory_cache
         (snd (set cfg (at_time 4) (str "d.example") (str "A") (VInt 4)
                   None None m))) = Some e0.
Proof.
  intros cfg m.
  exists (new_entry (str "ecca2f8d527bd8806ce7452d543aa4b9") (VInt 3) 3 300).
  apply (most_recent_entry_survives cfg (at_time 4) (str "d.example") (str "A")
           (VInt 4) None None m (str "544bb87b12f9ddf6817cbe166eb5f69f")).
  - vm_compute; reflexivity.
  - vm_compute; repeat constructor; simpl; intuition discriminate.
  - vm_compute; discriminate.
  - discriminate.
  - vm_compute; reflexivity.
  - intros k1 e1 Hin Hne; vm_compute in Hin.
    destruct Hin as [[= <- <-]|[[= <- <-]|[[= <- <-]|[]]]];
      [reflexivity | reflexivity | exfalso; apply Hne; reflexivity].
Defined.
